(** * Hathor wallet library: token helpers and the mining submission machine

    A shallow embedding of [src/tokens.js] and [src/wallet/sendTransaction.js].

    - JavaScript strings are modelled by [string], read as the UTF-8 bytes of
      the text.  Every operation the code applies to them here (comparison of
      one character with the ASCII characters [[], []] and [:], [slice(1, -1)]
      behind that comparison, [split(':')], [join(':')], concatenation,
      [Buffer.from]) acts on the UTF-8 bytes exactly as it acts on the text.
    - [null] results are [None]; JavaScript numbers that hold amounts, indexes
      and counters are [Z] or [nat]; durations in seconds are [Q].
    - What the two files import from modules that are not among the sources
      ([constants], [transaction], [wallet]) is a member of a class
      ([Constants], [TransactionLib], [WalletLib]); the definitions take an
      instance, and the theorems hold for every instance.  The answers of the
      mining API are a [Service]. *)

From Stdlib Require Import List String Ascii ZArith QArith Qminmax Lia Bool.
From Stdlib.Strings Require Import Byte.
Import ListNotations.
Close Scope Q_scope.
Local Open Scope list_scope.

(* ================================================================== *)
(** ** JavaScript string and array primitives used by the sources      *)
(* ================================================================== *)

Module Js.

(** [s.split(c)] for a one-character separator: never empty, [""] gives
    [[""]] (so the [[]] branch below is never taken). *)
Fixpoint split (sep : ascii) (s : string) : list string :=
  match s with
  | EmptyString => [EmptyString]
  | String c rest =>
      if Ascii.eqb c sep then EmptyString :: split sep rest
      else match split sep rest with
           | [] => [String c EmptyString]
           | field :: fields => String c field :: fields
           end
  end.

(** [arr.join(sep)]. *)
Fixpoint join (sep : string) (arr : list string) : string :=
  match arr with
  | [] => EmptyString
  | [x] => x
  | x :: rest => x ++ sep ++ join sep rest
  end.

(** [s.slice(b, e)]: a negative index counts from the end, both are clamped. *)
Definition slice (s : string) (b e : Z) : string :=
  let len := Z.of_nat (String.length s) in
  let from := if (b <? 0)%Z then Z.max (len + b) 0 else Z.min b len in
  let to := if (e <? 0)%Z then Z.max (len + e) 0 else Z.min e len in
  substring (Z.to_nat from) (Z.to_nat (to - from)) s.

(** [s[i] === c]; an index out of range reads [undefined], equal to no character. *)
Definition char_is (s : string) (i : nat) (c : ascii) : bool :=
  match String.get i s with
  | Some d => Ascii.eqb d c
  | None => false
  end.

(** [arr.pop()]: the last element ([undefined], here [None], on an empty
    array) and what is left of the array. *)
Fixpoint pop {A : Type} (arr : list A) : option A * list A :=
  match arr with
  | [] => (None, [])
  | [x] => (Some x, [])
  | x :: rest => let (removed, kept) := pop rest in (removed, x :: kept)
  end.

(** [arr.splice(-1)]: the array of the removed elements (the last one, if
    any) and what is left of the array. *)
Definition splice_last {A : Type} (arr : list A) : list A * list A :=
  let (removed, kept) := pop arr in
  (match removed with Some x => [x] | None => [] end, kept).

(** The value of a hexadecimal digit, in either case. *)
Definition hex_value (c : ascii) : option Z :=
  let n := Z.of_N (N_of_ascii c) in
  if ((48 <=? n) && (n <=? 57))%Z then Some (n - 48)%Z
  else if ((97 <=? n) && (n <=? 102))%Z then Some (n - 87)%Z
  else if ((65 <=? n) && (n <=? 70))%Z then Some (n - 55)%Z
  else None.

(** The longest prefix of hexadecimal digits, read as a number after [acc];
    [seen] tells whether a digit was read. *)
Fixpoint parse_hex_digits (s : string) (acc : Z) (seen : bool) : option Z :=
  match s with
  | EmptyString => if seen then Some acc else None
  | String c rest =>
      match hex_value c with
      | Some d => parse_hex_digits rest (16 * acc + d)%Z true
      | None => if seen then Some acc else None
      end
  end.

Fixpoint skip_blanks (s : string) : string :=
  match s with
  | String c rest =>
      if (Ascii.eqb c " " || Ascii.eqb c "009" || Ascii.eqb c "010" || Ascii.eqb c "013")%char
      then skip_blanks rest else s
  | EmptyString => s
  end.

(** [parseInt(s, 16)]: blanks, a sign and a [0x] prefix are skipped, then the
    longest run of hexadecimal digits is read; [None] is [NaN]. *)
Definition parseInt16 (s : string) : option Z :=
  let s := skip_blanks s in
  let (negative, s) :=
    match s with
    | String "-" rest => (true, rest)
    | String "+" rest => (false, rest)
    | _ => (false, s)
    end in
  let s :=
    match s with
    | String "0" (String "x" rest) => rest
    | String "0" (String "X" rest) => rest
    | _ => s
    end in
  match parse_hex_digits s 0%Z false with
  | Some n => Some (if negative then (- n)%Z else n)
  | None => None
  end.

(** One lowercase hexadecimal digit. *)
Definition hex_digit (n : N) : ascii :=
  match n with
  | 0%N => "0" | 1%N => "1" | 2%N => "2" | 3%N => "3"
  | 4%N => "4" | 5%N => "5" | 6%N => "6" | 7%N => "7"
  | 8%N => "8" | 9%N => "9" | 10%N => "a" | 11%N => "b"
  | 12%N => "c" | 13%N => "d" | 14%N => "e" | _ => "f"
  end%char.

Definition byte_to_hex (b : byte) : string :=
  let n := Byte.to_N b in
  String (hex_digit (n / 16)) (String (hex_digit (n mod 16)) EmptyString).

(** [buf.toString('hex')]. *)
Fixpoint toString_hex (buf : list byte) : string :=
  match buf with
  | [] => EmptyString
  | b :: rest => byte_to_hex b ++ toString_hex rest
  end.

(** [Buffer.from(s)]: the UTF-8 bytes of the string. *)
Definition Buffer_from (s : string) : list byte := list_byte_of_string s.

(** Number of occurrences of a character. *)
Fixpoint count_char (c : ascii) (s : string) : nat :=
  match s with
  | EmptyString => 0
  | String d rest => (if Ascii.eqb d c then 1 else 0) + count_char c rest
  end.

End Js.

(* ================================================================== *)
(** ** Data of [tokens.js]                                             *)
(* ================================================================== *)

(** A token configuration [{name, symbol, uid}]. *)
Module TokenConfig.
Record t : Type := mk { name : string; symbol : string; uid : string }.
End TokenConfig.

(** A transaction input [{tx_id, index, token, address}]. *)
Module Input.
Record t : Type := mk { tx_id : string; index : nat; token : string; address : string }.
End Input.

(** A transaction output [{address, value, tokenData}]. *)
Module Output.
Record t : Type := mk { address : string; value : Z; tokenData : Z }.
End Output.

(** An entry of the [tokens] array of a transaction: [createToken] puts the
    buffer [getTokenUID] returns there, every other builder a uid string. *)
Inductive TokenId : Type :=
| UidString (uid : string)
| UidBuffer (uid : list byte).

(** The data handed to [transaction.sendTransaction]: [{inputs, outputs, tokens}]. *)
Module TxData.
Record t : Type := mk { inputs : list Input.t; outputs : list Output.t; tokens : list TokenId }.
End TxData.

(** An output of a transaction of the wallet history, with the fields the
    selector and the wallet predicates read. *)
Module Decoded.
Record t : Type := mk { address : string }.
End Decoded.

Module TxOut.
Record t : Type := mk {
  value : Z;
  token : string;
  token_data : Z;
  spent_by : option string;
  decoded : Decoded.t
}.
End TxOut.

(** A transaction of the wallet history. *)
Module Tx.
Record t : Type := mk { tx_id : string; is_voided : bool; outputs : list TxOut.t }.
End Tx.

(** What [getMeltInputs] returns when it succeeds: [{inputs, inputsAmount}]. *)
Module MeltInputs.
Record t : Type := mk { inputs : list Input.t; inputsAmount : Z }.
End MeltInputs.

(** How a promise stands once the calls it waits for have answered. *)
Inductive Promise (A E : Type) : Type :=
| Pending
| Resolved (value : A)
| Rejected (reason : E).
Arguments Pending {A E}.
Arguments Resolved {A E} value.
Arguments Rejected {A E} reason.

(** The error object [transaction.sendTransaction] rejects with ([e.message]
    is read by [createToken]). *)
Module Error.
Record t : Type := mk { message : string }.
End Error.

(** What [transaction.sendTransaction] resolves with: [response.tx.hash] and
    [response.tx.tokens[0]], the two fields [createToken] reads.  The
    transaction a creation returns lists the created token, so its first
    token is a field here. *)
Module Response.
Record t : Type := mk { tx_hash : string; tx_tokens_0 : string }.
End Response.

(** What the promise of [createToken] rejects with: [e.message] when the
    creation failed, the reason of the mint promise itself when the mint did. *)
Inductive Rejection : Type :=
| RejectedMessage (message : string)
| RejectedReason (e : Error.t).

(** What the two validations return: [{success, message, tokenData}], the
    last two present or not by the case. *)
Module Validation.
Record t : Type := mk {
  success : bool;
  message : option string;
  tokenData : option TokenConfig.t
}.
End Validation.

(* ================================================================== *)
(** ** What [tokens.js] imports                                        *)
(* ================================================================== *)

(** [./constants]. *)
Class Constants : Type := {
  HATHOR_TOKEN_CONFIG : TokenConfig.t;
  TOKEN_CREATION_MASK : Z;
  TOKEN_MINT_MASK : Z;
  TOKEN_MELT_MASK : Z;
  AUTHORITY_TOKEN_DATA : Z;
  MIN_POLLING_INTERVAL : Q
}.

(** [./transaction] and the hashing of [bitcore-lib].  [Net] is whatever
    decides how a submission settles. *)
Class TransactionLib (Net : Type) : Type := {
  getChecksum : list byte -> list byte;
  intToBytes : nat -> nat -> list byte;
  hexToBuffer : string -> list byte;
  sha256 : list byte -> list byte;
  sendTransaction : TxData.t -> string -> Net -> Promise Response.t Error.t * Net
}.

(** [./wallet]: [W] is the state behind the module, [D] the wallet data
    [getWalletData] returns, [Hist] the type of [data.historyTransactions]. *)
Class WalletLib (W D Hist : Type) : Type := {
  getWalletData : W -> option D;
  historyTransactions : D -> Hist;
  filterHistoryTransactions : Hist -> string -> list Tx.t;
  isAuthorityOutput : TxOut.t -> bool;
  isAddressMine : string -> D -> bool;
  getAddressToUse : W -> string * W
}.

(** Modelled from the spec: [./storage], which the spec gives as
    [getItem(key)] / [setItem(key, value)], a key-value store; the only items
    [tokens.js] keeps there are lists of token configurations. *)
Definition Storage : Type := string -> option (list TokenConfig.t).

Definition storage_getItem (key : string) (st : Storage) : option (list TokenConfig.t) :=
  st key.

Definition storage_setItem (key : string) (item : list TokenConfig.t) (st : Storage) : Storage :=
  fun k => if String.eqb k key then Some item else st k.

(** The world [tokens.js] runs in, and the submissions made so far. *)
Record Env (W Net : Type) : Type := mkEnv {
  wallet : W;
  net : Net;
  storage : Storage;
  submitted : list (TxData.t * string)
}.
Arguments mkEnv {W Net}.
Arguments wallet {W Net}.
Arguments net {W Net}.
Arguments storage {W Net}.
Arguments submitted {W Net}.

(** State passing over [Env]. *)
Definition M (W Net A : Type) : Type := Env W Net -> A * Env W Net.

Definition ret {W Net A : Type} (a : A) : M W Net A := fun env => (a, env).

Definition bind {W Net A B : Type} (m : M W Net A) (k : A -> M W Net B) : M W Net B :=
  fun env => let (a, env') := m env in k a env'.

Notation "x <- m ;; k" := (bind m (fun x => k))
  (at level 61, m at next level, right associativity).
Notation "m ;;; k" := (bind m (fun _ => k))
  (at level 61, right associativity).

(* ================================================================== *)
(** ** [tokens.js]                                                     *)
(* ================================================================== *)

Section Tokens.

Context {W D Hist Net : Type}.
Context {constants : Constants} {txlib : TransactionLib Net} {walletlib : WalletLib W D Hist}.

Local Abbreviation M := (M W Net).

(** [storage.getItem], [storage.setItem], [wallet.getAddressToUse] and
    [transaction.sendTransaction] as steps of the state passing. *)
Definition getItem (key : string) : M (option (list TokenConfig.t)) :=
  fun env => (storage_getItem key (storage env), env).

Definition setItem (key : string) (item : list TokenConfig.t) : M unit :=
  fun env => (tt, mkEnv (wallet env) (net env) (storage_setItem key item (storage env))
                        (submitted env)).

Definition wallet_getAddressToUse : M string :=
  fun env => let (a, w) := getAddressToUse (wallet env) in
             (a, mkEnv w (net env) (storage env) (submitted env)).

Definition transaction_sendTransaction (data : TxData.t) (pin : string)
  : M (Promise Response.t Error.t) :=
  fun env => let (p, n) := sendTransaction data pin (net env) in
             (p, mkEnv (wallet env) n (storage env) (submitted env ++ [(data, pin)])).

Definition getTokenUID (txID : string) (index : nat) : list byte :=
  let arr := [] in
  let arr := arr ++ [hexToBuffer txID] in
  let arr := arr ++ [intToBytes index 1] in
  sha256 (List.concat arr).

Definition getTokens : M (list TokenConfig.t) :=
  dataToken <- getItem "wallet:tokens" ;;
  match dataToken with
  | None => ret [HATHOR_TOKEN_CONFIG]
  | Some dataToken => ret dataToken
  end.

Definition saveToStorage (newTokens : list TokenConfig.t) : M unit :=
  setItem "wallet:tokens" newTokens.

Definition addToken (uid name symbol : string) : M (list TokenConfig.t) :=
  let newConfig := TokenConfig.mk name symbol uid in
  tokens <- getTokens ;;
  let tokens := tokens ++ [newConfig] in
  saveToStorage tokens ;;;
  ret tokens.

Section ConfigurationString.
Local Open Scope string_scope.

Definition getConfigurationString (uid name symbol : string) : string :=
  let partialConfig := name ++ ":" ++ symbol ++ ":" ++ uid in
  let checksum := getChecksum (Js.Buffer_from partialConfig) in
  "[" ++ partialConfig ++ ":" ++ Js.toString_hex checksum ++ "]".

(** [checksum[0]] of an empty [checksum] would be [undefined], which differs
    from every string, so that branch returns [null] as the comparison does.
    The two [pop]s run behind the guard [configArr.length >= 4] and never read
    [undefined]: their [None] branches are closed by that guard. *)
Definition getTokenFromConfigurationString (config : string) : option TokenConfig.t :=
  (* First we validate that first char is [ and last one is ] *)
  if (config =? "")
     || negb (Js.char_is config 0 "[")
     || negb (Js.char_is config (String.length config - 1) "]")
  then None
  else
    (* Then we remove the [] and split the string by : *)
    let configArr := Js.split ":" (Js.slice config 1 (-1)) in
    if (List.length configArr <? 4)%nat then None
    else
      (* Last element is the checksum *)
      let (checksum, configArr) := Js.splice_last configArr in
      let configWithoutChecksum := Js.join ":" configArr in
      let correctChecksum := getChecksum (Js.Buffer_from configWithoutChecksum) in
      match nth_error checksum 0 with
      | None => None
      | Some checksum0 =>
          if negb (Js.toString_hex correctChecksum =? checksum0) then None
          else
            match Js.pop configArr with
            | (None, _) => None
            | (Some uid, configArr) =>
                match Js.pop configArr with
                | (None, _) => None
                | (Some symbol, configArr) =>
                    (* Assuming that the name might have : on it *)
                    let name := Js.join ":" configArr in
                    Some (TokenConfig.mk name symbol uid)
                end
            end
      end.

End ConfigurationString.

Definition mintTokens (txID : string) (index : nat) (addressSpent token address : string)
    (amount : Z) (pin : string) (createAnotherMint createMelt : bool)
  : M (Promise Response.t Error.t) :=
  let input := Input.mk txID index token addressSpent in
  (* Output1: Mint token amount *)
  let outputs := [Output.mk address amount 1] in
  let outputs :=
    if createAnotherMint
    then outputs ++ [Output.mk address TOKEN_MINT_MASK AUTHORITY_TOKEN_DATA]
    else outputs in
  let outputs :=
    if createMelt
    then outputs ++ [Output.mk address TOKEN_MELT_MASK AUTHORITY_TOKEN_DATA]
    else outputs in
  let newTxData := TxData.mk [input] outputs [UidString token] in
  transaction_sendTransaction newTxData pin.

Definition createToken (input : Input.t) (output : Output.t) (address name symbol : string)
    (mintAmount : Z) (pin : string) : M (Promise TokenConfig.t Rejection) :=
  let tokenMasks := Z.lor (Z.lor TOKEN_CREATION_MASK TOKEN_MINT_MASK) TOKEN_MELT_MASK in
  let tokenUID := getTokenUID (Input.tx_id input) (Input.index input) in
  let authorityOutput := Output.mk address tokenMasks AUTHORITY_TOKEN_DATA in
  let txData := TxData.mk [input] [authorityOutput; output] [UidBuffer tokenUID] in
  txPromise <- transaction_sendTransaction txData pin ;;
  match txPromise with
  | Resolved response =>
      (* Save in storage and redux new token configuration *)
      addToken (Response.tx_tokens_0 response) name symbol ;;;
      mintPromise <- mintTokens (Response.tx_hash response) 0 address
                       (Response.tx_tokens_0 response) address mintAmount pin true true ;;
      match mintPromise with
      | Resolved _ => ret (Resolved (TokenConfig.mk name symbol (Response.tx_tokens_0 response)))
      | Rejected message => ret (Rejected (RejectedReason message))
      | Pending => ret Pending
      end
  | Rejected e => ret (Rejected (RejectedMessage (Error.message e)))
  | Pending => ret Pending
  end.

(** The inner loop of [getMeltInputs] over [tx.outputs.entries()], from
    position [index] on: [inl] is the [return] inside the loop, [inr] the
    loop running to its end with the accumulators as they then stand. *)
Fixpoint getMeltInputs_outputs (data : D) (amount : Z) (token tx_id : string)
    (outputs : list TxOut.t) (index : nat) (inputs : list Input.t) (inputsAmount : Z)
  : MeltInputs.t + (list Input.t * Z) :=
  match outputs with
  | [] => inr (inputs, inputsAmount)
  | txout :: rest =>
      if isAuthorityOutput txout then
        (* Ignore authority outputs. *)
        getMeltInputs_outputs data amount token tx_id rest (S index) inputs inputsAmount
      else if match TxOut.spent_by txout with None => true | Some _ => false end
              && String.eqb (TxOut.token txout) token
              && isAddressMine (Decoded.address (TxOut.decoded txout)) data
      then
        let inputs :=
          inputs ++ [Input.mk tx_id index token (Decoded.address (TxOut.decoded txout))] in
        let inputsAmount := (inputsAmount + TxOut.value txout)%Z in
        if (inputsAmount >=? amount)%Z then inl (MeltInputs.mk inputs inputsAmount)
        else getMeltInputs_outputs data amount token tx_id rest (S index) inputs inputsAmount
      else getMeltInputs_outputs data amount token tx_id rest (S index) inputs inputsAmount
  end.

(** The outer loop of [getMeltInputs] over the filtered history. *)
Fixpoint getMeltInputs_history (data : D) (amount : Z) (token : string)
    (filteredHistory : list Tx.t) (inputs : list Input.t) (inputsAmount : Z)
  : option MeltInputs.t :=
  match filteredHistory with
  | [] => None
  | tx :: rest =>
      if Tx.is_voided tx then
        (* Ignore voided transactions. *)
        getMeltInputs_history data amount token rest inputs inputsAmount
      else
        match getMeltInputs_outputs data amount token (Tx.tx_id tx) (Tx.outputs tx) 0
                inputs inputsAmount with
        | inl result => Some result
        | inr (inputs, inputsAmount) =>
            getMeltInputs_history data amount token rest inputs inputsAmount
        end
  end.

Definition getMeltInputs (amount : Z) (token : string) (w : W) : option MeltInputs.t :=
  match getWalletData w with
  | None => None
  | Some data =>
      let inputs := [] in
      let inputsAmount := 0%Z in
      let filteredHistory := filterHistoryTransactions (historyTransactions data) token in
      getMeltInputs_history data amount token filteredHistory inputs inputsAmount
  end.

(** [meltTokens] returns [null] (here [None]) or the promise of the submission. *)
Definition meltTokens (txId : string) (index : nat) (addressSpent token : string)
    (amount : Z) (pin : string) (createAnotherMelt : bool)
  : M (option (Promise Response.t Error.t)) :=
  fun env =>
  match getMeltInputs amount token (wallet env) with
  | None =>
      (* Can't find inputs to this amount *)
      ret None env
  | Some result =>
      (* First adding authority input with MELT capability *)
      let authorityInput := Input.mk txId index token addressSpent in
      let inputs := authorityInput :: MeltInputs.inputs result in
      let tokens := [UidString token] in
      (outputs <-
         (if (MeltInputs.inputsAmount result >? amount)%Z then
            (* Need to create change output *)
            newAddress <- wallet_getAddressToUse ;;
            ret [Output.mk newAddress (MeltInputs.inputsAmount result - amount) 1]
          else ret []) ;;
       outputs <-
         (if createAnotherMelt then
            (* New melt authority *)
            newAddress <- wallet_getAddressToUse ;;
            ret (outputs ++ [Output.mk newAddress TOKEN_MELT_MASK AUTHORITY_TOKEN_DATA])
          else ret outputs) ;;
       let newTxData := TxData.mk inputs outputs tokens in
       promise <- transaction_sendTransaction newTxData pin ;;
       ret (Some promise)) env
  end.

Definition filterTokens (tokens : list TokenConfig.t) (toRemove : TokenConfig.t)
  : list TokenConfig.t :=
  filter (fun token => negb (String.eqb (TokenConfig.uid token) (TokenConfig.uid toRemove)))
         tokens.

(** [arr.findIndex(p)]: the first position where [p] holds, [-1] when none;
    [i] is the position of the head of [arr]. *)
Fixpoint findIndex_from {A : Type} (p : A -> bool) (arr : list A) (i : Z) : Z :=
  match arr with
  | [] => (-1)%Z
  | x :: rest => if p x then i else findIndex_from p rest (i + 1)%Z
  end.

Definition findIndex {A : Type} (p : A -> bool) (arr : list A) : Z :=
  findIndex_from p arr 0%Z.

Definition getTokenIndex (tokens : list TokenConfig.t) (uid : string) : Z :=
  (* If token is Hathor, index is always 0 *)
  (* Otherwise, it is always the array index + 1 *)
  if String.eqb uid (TokenConfig.uid HATHOR_TOKEN_CONFIG) then 0%Z
  else
    let tokensWithoutHathor := filterTokens tokens HATHOR_TOKEN_CONFIG in
    let myIndex :=
      findIndex (fun token => String.eqb (TokenConfig.uid token) uid) tokensWithoutHathor in
    (myIndex + 1)%Z.

(** [tokenExists]: the loop returns the first token of the list with the uid. *)
Definition tokenExists (uid : string) : M (option TokenConfig.t) :=
  tokens <- getTokens ;;
  ret (find (fun token => String.eqb (TokenConfig.uid token) uid) tokens).

Definition editToken (uid name symbol : string) : M (list TokenConfig.t) :=
  tokens <- getTokens ;;
  let filteredTokens :=
    filter (fun token => negb (String.eqb (TokenConfig.uid token) uid)) tokens in
  let newConfig := TokenConfig.mk name symbol uid in
  let editedTokens := filteredTokens ++ [newConfig] in
  saveToStorage editedTokens ;;;
  ret editedTokens.

Definition unregisterToken (uid : string) : M (list TokenConfig.t) :=
  tokens <- getTokens ;;
  let filteredTokens :=
    filter (fun token => negb (String.eqb (TokenConfig.uid token) uid)) tokens in
  saveToStorage filteredTokens ;;;
  ret filteredTokens.

Definition validateTokenToAddByUid (uid : string) : M Validation.t :=
  existedToken <- tokenExists uid ;;
  match existedToken with
  | Some existedToken =>
      ret (Validation.mk false
             (Some ("You already have this token: " ++ uid ++ " ("
                    ++ TokenConfig.name existedToken ++ ")")%string)
             None)
  | None => ret (Validation.mk true None None)
  end.

(** The optional [uid] is [None] when it is not passed; the test [uid && ...]
    also lets the empty string through. *)
Definition validateTokenToAddByConfigurationString (config : string) (uid : option string)
  : M Validation.t :=
  let tokenData := getTokenFromConfigurationString config in
  match tokenData with
  | None => ret (Validation.mk false (Some "Invalid configuration string"%string) None)
  | Some tokenData =>
      let uid_is_set :=
        match uid with
        | Some u => negb (String.eqb u "")
        | None => false
        end in
      let uid := match uid with Some u => u | None => ""%string end in
      if uid_is_set && negb (String.eqb uid (TokenConfig.uid tokenData)) then
        ret (Validation.mk false
               (Some ("Configuration string uid does not match: " ++ uid ++ " != "
                      ++ TokenConfig.uid tokenData)%string)
               None)
      else
        validation <- validateTokenToAddByUid (TokenConfig.uid tokenData) ;;
        if Validation.success validation
        then ret (Validation.mk true None (Some tokenData))
        else ret validation
  end.

(** [delegateAuthority]: [type] is the string the caller passes, ['mint'] or
    any other. *)
Definition delegateAuthority (txID : string) (index : nat) (addressSpent token address : string)
    (createAnother : bool) (type pin : string) : M (Promise Response.t Error.t) :=
  let input := Input.mk txID index token addressSpent in
  let outputValue := if String.eqb type "mint" then TOKEN_MINT_MASK else TOKEN_MELT_MASK in
  (* Output1: Delegated output *)
  let outputs := [Output.mk address outputValue AUTHORITY_TOKEN_DATA] in
  outputs <-
    (if createAnother then
       (* Output2: new authority for this wallet *)
       newAddress <- wallet_getAddressToUse ;;
       ret (outputs ++ [Output.mk newAddress outputValue AUTHORITY_TOKEN_DATA])
     else ret outputs) ;;
  let newTxData := TxData.mk [input] outputs [UidString token] in
  transaction_sendTransaction newTxData pin.

End Tokens.

(* ================================================================== *)
(** ** [wallet/sendTransaction.js]                                     *)
(* ================================================================== *)

(** The response of [txMiningApi.submitJob]. *)
Module SubmitResponse.
Record t : Type := mk { expected_total_time : Q; job_id : string }.
End SubmitResponse.

(** [response.tx] of a finished job. *)
Module MinedTx.
Record t : Type := mk {
  nonce : string;
  parents : list string;
  timestamp : Z;
  weight : Q
}.
End MinedTx.

(** The response of [txMiningApi.getJobStatus]; [tx] is read only when the
    status is [done]. *)
Module StatusResponse.
Record t : Type := mk { status : string; tx : MinedTx.t; expected_total_time : Q }.
End StatusResponse.

(** The payload of the [success] event (the nonce is [None] when [parseInt]
    gives [NaN]). *)
Module Mined.
Record t : Type := mk {
  nonce : option Z;
  parents : list string;
  timestamp : Z;
  weight : Q
}.
End Mined.

(** The events of the emitter, with their payloads. *)
Inductive Event : Type :=
| job_submitted (estimation : option Q) (jobID : option string)
| estimation_updated (jobID : option string) (estimation : Q)
| job_done (jobID : option string)
| success (data : Mined.t)
| send_error (message : string)
| unexpected_error (message : string).

(** What the object does to the outside. *)
Inductive Action : Type :=
| Emit (e : Event)
| CallSubmitJob (txHex : string)
| SetTimeout (poll_time : Q)
| CallGetJobStatus (jobID : option string).

(** What the outside does to the object: the caller's [start()], and the
    callbacks the object handed out coming back. *)
Inductive Stimulus : Type :=
| Start
| SubmitJobResponse (response : SubmitResponse.t)
| SubmitJobFailed
| TimerFired
| JobStatusResponse (response : StatusResponse.t)
| JobStatusFailed.

(** The source keeps no state variable: where the machine stands is which of
    its callbacks is still to come.  [Submitting]: the callback of
    [submitJob]; [Polling TimerPending]: the timer of [handleJobStatus];
    [Polling StatusPending]: the callback of [getJobStatus]; [Done] and
    [Failed]: none, after [success] or after an error event. *)
Inductive PollStage : Type := TimerPending | StatusPending.

Inductive Phase : Type :=
| Idle
| Submitting
| Polling (stage : PollStage)
| Done
| Failed.

Definition noMinersError : string :=
  "There are no miners to resolve the proof of work of this transaction.".

Definition unexpectedError : string :=
  "An unexpected error happened. Please try to send your transaction again.".

Definition timeoutError : string :=
  "Timeout solving transaction's proof-of-work.

All transactions need to solve a proof-of-work as an anti spam mechanism. Currently, Hathor Labs provides this service for free, but their servers may be fully loaded right now.".

(** The fields of a [SendTransaction] object. *)
Record SendTransaction (T : Type) : Type := mkSendTransaction {
  transaction : T;
  estimation : option Q;
  jobID : option string;
  countTxMiningAttempts : Z;
  maxTxMiningRetries : Z;
  promise : Promise Mined.t string;
  phase : Phase
}.
Arguments mkSendTransaction {T}.
Arguments transaction {T}.
Arguments estimation {T}.
Arguments jobID {T}.
Arguments countTxMiningAttempts {T}.
Arguments maxTxMiningRetries {T}.
Arguments promise {T}.
Arguments phase {T}.

(** An answer of the mining service, or the failure of the call. *)
Inductive Reply (A : Type) : Type :=
| Answer (response : A)
| TransportFailure.
Arguments Answer {A} response.
Arguments TransportFailure {A}.

(** The mining service as the object meets it: its answer to the [n]-th
    submission and to the [n]-th status request (counted from 0). *)
Record Service : Type := mkService {
  submit_reply : nat -> Reply SubmitResponse.t;
  status_reply : nat -> Reply StatusResponse.t
}.

Section Mining.

Context {T : Type} (toHex : T -> string).
Context {constants : Constants}.

Local Abbreviation Obj := (SendTransaction T).

(** A method body: the new fields and what it did, in order. *)
Definition Method : Type := Obj -> Obj * list Action.

Definition andThen (m k : Method) : Method :=
  fun this => let (this1, done1) := m this in
              let (this2, done2) := k this1 in
              (this2, done1 ++ done2).

Local Infix ">>" := andThen (at level 61, right associativity).

Definition set_estimation (e : Q) : Method :=
  fun this => (mkSendTransaction (transaction this) (Some e) (jobID this)
                 (countTxMiningAttempts this) (maxTxMiningRetries this)
                 (promise this) (phase this), []).

Definition set_jobID (j : string) : Method :=
  fun this => (mkSendTransaction (transaction this) (estimation this) (Some j)
                 (countTxMiningAttempts this) (maxTxMiningRetries this)
                 (promise this) (phase this), []).

Definition set_phase (p : Phase) : Method :=
  fun this => (mkSendTransaction (transaction this) (estimation this) (jobID this)
                 (countTxMiningAttempts this) (maxTxMiningRetries this)
                 (promise this) p, []).

(** A promise settles once: [resolve] and [reject] after that do nothing. *)
Definition settle {A E : Type} (p outcome : Promise A E) : Promise A E :=
  match p with
  | Pending => outcome
  | _ => p
  end.

(** [this.emit(...)], with the three listeners the constructor registers on
    [success], [send-error] and [unexpected-error]. *)
Definition emit (e : Event) : Method :=
  fun this =>
    let promise :=
      match e with
      | success data => settle (promise this) (Resolved data)
      | send_error message => settle (promise this) (Rejected message)
      | unexpected_error message => settle (promise this) (Rejected message)
      | _ => promise this
      end in
    (mkSendTransaction (transaction this) (estimation this) (jobID this)
       (countTxMiningAttempts this) (maxTxMiningRetries this) promise (phase this),
     [Emit e]).

(** [new SendTransaction(transaction, options)], [options] defaulting to
    [{ maxTxMiningRetries: 3 }]. *)
Definition new_SendTransaction (transaction : T) (options : option Z) : Obj :=
  let maxTxMiningRetries := match options with Some m => m | None => 3%Z end in
  mkSendTransaction transaction None None 0%Z maxTxMiningRetries Pending Idle.

(** [submitJob()], up to the call of the mining API. *)
Definition submitJob : Method :=
  fun this =>
    let txHex := toHex (transaction this) in
    (mkSendTransaction (transaction this) (estimation this) (jobID this)
       (countTxMiningAttempts this + 1)%Z (maxTxMiningRetries this)
       (promise this) Submitting,
     [CallSubmitJob txHex]).

(** [handleJobStatus()], up to [setTimeout]; a [null] estimation counts as 0
    in the division. *)
Definition handleJobStatus : Method :=
  fun this =>
    let seconds := match estimation this with Some e => e | None => 0%Q end in
    let poll_time := (Qmax (seconds / 2) MIN_POLLING_INTERVAL * 1000)%Q in
    (mkSendTransaction (transaction this) (estimation this) (jobID this)
       (countTxMiningAttempts this) (maxTxMiningRetries this)
       (promise this) (Polling TimerPending),
     [SetTimeout poll_time]).

(** No callback is left after [success] or an error event. *)
Definition stop (p : Phase) : Method := set_phase p.

(** The callback of [txMiningApi.submitJob]. *)
Definition submitJob_response (response : SubmitResponse.t) : Method :=
  if Qeq_bool (SubmitResponse.expected_total_time response) (-1) then
    (* Error: there are no miners online *)
    emit (send_error noMinersError) >> stop Failed
  else
    set_estimation (SubmitResponse.expected_total_time response) >>
    set_jobID (SubmitResponse.job_id response) >>
    (fun this => emit (job_submitted (estimation this) (jobID this)) this) >>
    handleJobStatus.

(** The [catch] of [txMiningApi.submitJob] and of [txMiningApi.getJobStatus]. *)
Definition api_catch : Method :=
  emit (unexpected_error unexpectedError) >> stop Failed.

(** The timer of [handleJobStatus] firing: [getJobStatus] is called. *)
Definition timer_fired : Method :=
  fun this =>
    let (this, _) := set_phase (Polling StatusPending) this in
    (this, [CallGetJobStatus (jobID this)]).

(** The callback of [txMiningApi.getJobStatus]. *)
Definition getJobStatus_response (response : StatusResponse.t) : Method :=
  if String.eqb (StatusResponse.status response) "done" then
    (fun this => emit (job_done (jobID this)) this) >>
    emit (success (Mined.mk
                     (Js.parseInt16 (MinedTx.nonce (StatusResponse.tx response)))
                     (MinedTx.parents (StatusResponse.tx response))
                     (MinedTx.timestamp (StatusResponse.tx response))
                     (MinedTx.weight (StatusResponse.tx response)))) >>
    stop Done
  else if String.eqb (StatusResponse.status response) "timeout" then
    (* Error: Timeout resolving pow *)
    fun this =>
      if (countTxMiningAttempts this <? maxTxMiningRetries this)%Z then submitJob this
      else (emit (send_error timeoutError) >> stop Failed) this
  else
    if Qeq_bool (StatusResponse.expected_total_time response) (-1) then
      (* Error: there are no miners online *)
      emit (send_error noMinersError) >> stop Failed
    else
      set_estimation (StatusResponse.expected_total_time response) >>
      (fun this =>
         emit (estimation_updated (jobID this) (StatusResponse.expected_total_time response))
              this) >>
      handleJobStatus.

(** [start()]. *)
Definition start : Method := submitJob.

(** One stimulus: [None] when the object is not waiting for it. *)
Definition react (stimulus : Stimulus) (this : Obj) : option (Obj * list Action) :=
  match stimulus, phase this with
  | Start, Idle => Some (start this)
  | SubmitJobResponse response, Submitting => Some (submitJob_response response this)
  | SubmitJobFailed, Submitting => Some (api_catch this)
  | TimerFired, Polling TimerPending => Some (timer_fired this)
  | JobStatusResponse response, Polling StatusPending =>
      Some (getJobStatus_response response this)
  | JobStatusFailed, Polling StatusPending => Some (api_catch this)
  | _, _ => None
  end.

(** A run against a mining service: the object, how many submissions and
    status requests the service has answered, and the log of the stimuli with
    what the object did on each. *)
Record Run : Type := mkRun {
  object : Obj;
  answered_submissions : nat;
  answered_polls : nat;
  log : list (Stimulus * list Action)
}.

(** What comes back next, by what the object waits for. *)
Definition next_stimulus (service : Service) (r : Run) : option (Stimulus * nat * nat) :=
  match phase (object r) with
  | Idle => Some (Start, answered_submissions r, answered_polls r)
  | Submitting =>
      Some (match submit_reply service (answered_submissions r) with
            | Answer response => SubmitJobResponse response
            | TransportFailure => SubmitJobFailed
            end, S (answered_submissions r), answered_polls r)
  | Polling TimerPending => Some (TimerFired, answered_submissions r, answered_polls r)
  | Polling StatusPending =>
      Some (match status_reply service (answered_polls r) with
            | Answer response => JobStatusResponse response
            | TransportFailure => JobStatusFailed
            end, answered_submissions r, S (answered_polls r))
  | Done | Failed => None
  end.

Definition run_step (service : Service) (r : Run) : option Run :=
  match next_stimulus service r with
  | None => None
  | Some (stimulus, submissions, polls) =>
      match react stimulus (object r) with
      | None => None
      | Some (this, done) => Some (mkRun this submissions polls (log r ++ [(stimulus, done)]))
      end
  end.

(** At most [fuel] stimuli; the run stops by itself in [Done] and [Failed]. *)
Fixpoint run (service : Service) (fuel : nat) (r : Run) : Run :=
  match fuel with
  | O => r
  | S fuel =>
      match run_step service r with
      | None => r
      | Some r' => run service fuel r'
      end
  end.

(** [new SendTransaction(transaction, options)] followed by [start()] and by
    whatever comes back, for at most [fuel] stimuli. *)
Definition send (service : Service) (fuel : nat) (transaction : T) (options : option Z) : Run :=
  run service fuel (mkRun (new_SendTransaction transaction options) 0 0 []).

End Mining.

(** Reading a log. *)
Definition actions_of (l : list (Stimulus * list Action)) : list Action :=
  List.concat (map snd l).

Definition is_submission (a : Action) : bool :=
  match a with CallSubmitJob _ => true | _ => false end.

Definition is_poll (a : Action) : bool :=
  match a with CallGetJobStatus _ => true | _ => false end.

Definition is_status_response (s : Stimulus) : bool :=
  match s with JobStatusResponse _ => true | _ => false end.

(** Submissions of a job, status requests, and the submissions made on a
    status response (the resubmissions). *)
Definition submissions (l : list (Stimulus * list Action)) : nat :=
  List.length (filter is_submission (actions_of l)).

Definition polls (l : list (Stimulus * list Action)) : nat :=
  List.length (filter is_poll (actions_of l)).

Definition resubmissions (l : list (Stimulus * list Action)) : nat :=
  List.length (filter is_submission
                 (actions_of (filter (fun entry => is_status_response (fst entry)) l))).

(* ================================================================== *)
(** ** Notions the statements are written with                         *)
(* ================================================================== *)

Section Notions.

Context {W D Hist : Type}.
Context {constants : Constants} {walletlib : WalletLib W D Hist}.

(** The tokens of a list that are not the native one. *)
Definition non_native (tokens : list TokenConfig.t) : list TokenConfig.t :=
  filter (fun x => negb (String.eqb (TokenConfig.uid x) (TokenConfig.uid HATHOR_TOKEN_CONFIG)))
         tokens.

(** An output the selector may take: of the requested token, not an
    authority output, unspent, and at an address of the wallet. *)
Definition spendable (data : D) (token : string) (txout : TxOut.t) : bool :=
  negb (isAuthorityOutput txout)
  && match TxOut.spent_by txout with None => true | Some _ => false end
  && String.eqb (TxOut.token txout) token
  && isAddressMine (Decoded.address (TxOut.decoded txout)) data.

(** The elements of a list with their positions, the first one at [i]. *)
Definition numbered {A : Type} (i : nat) (l : list A) : list (nat * A) :=
  combine (seq i (List.length l)) l.

(** The spendable outputs among [outputs], in order, each as the input that
    spends it and its value; [i] is the position of the first of [outputs]
    in its transaction. *)
Definition output_candidates (data : D) (token tx_id : string) (i : nat)
    (outputs : list TxOut.t) : list (Input.t * Z) :=
  map (fun io => (Input.mk tx_id (fst io) token (Decoded.address (TxOut.decoded (snd io))),
                  TxOut.value (snd io)))
      (filter (fun io => spendable data token (snd io)) (numbered i outputs)).

(** The spendable outputs of a history, in history order; a voided
    transaction gives none. *)
Definition candidates (data : D) (token : string) (history : list Tx.t)
  : list (Input.t * Z) :=
  flat_map (fun tx => if Tx.is_voided tx then []
                      else output_candidates data token (Tx.tx_id tx) 0 (Tx.outputs tx))
           history.

Definition total (l : list (Input.t * Z)) : Z := fold_right Z.add 0%Z (map snd l).

(** What the loop makes of the candidates [cands], the total being compared
    after each candidate taken: a success holds the shortest non-empty prefix
    of the candidates whose total reaches [amount], with that total; a failure
    means that no non-empty prefix of the candidates reaches [amount]. *)
Definition selects (cands : list (Input.t * Z)) (amount : Z) (result : option MeltInputs.t)
  : Prop :=
  match result with
  | Some r =>
      exists taken rest,
        cands = taken ++ rest
        /\ taken <> []
        /\ MeltInputs.inputs r = map fst taken
        /\ MeltInputs.inputsAmount r = total taken
        /\ (amount <= MeltInputs.inputsAmount r)%Z
        /\ (forall shorter more,
              taken = shorter ++ more -> shorter <> [] -> more <> [] ->
              (total shorter < amount)%Z)
  | None =>
      forall taken rest, cands = taken ++ rest -> taken <> [] -> (total taken < amount)%Z
  end.

(** The selection as the claim words it, stopping as soon as the running
    total reaches [amount]: a success holds the shortest prefix of the
    candidates, empty or not, whose total reaches [amount], with that total; a
    failure means that no prefix of the candidates reaches [amount], the
    empty one included. *)
Definition selects_as_soon_as_reached (cands : list (Input.t * Z)) (amount : Z)
    (result : option MeltInputs.t) : Prop :=
  match result with
  | Some r =>
      exists taken rest,
        cands = taken ++ rest
        /\ MeltInputs.inputs r = map fst taken
        /\ MeltInputs.inputsAmount r = total taken
        /\ (amount <= MeltInputs.inputsAmount r)%Z
        /\ (forall shorter more,
              taken = shorter ++ more -> more <> [] -> (total shorter < amount)%Z)
  | None =>
      forall taken rest, cands = taken ++ rest -> (total taken < amount)%Z
  end.

(** Taking candidates one by one, on top of [inputs] and [inputsAmount],
    until the total reaches [amount]. *)
Fixpoint take_until (amount : Z) (cands : list (Input.t * Z)) (inputs : list Input.t)
    (inputsAmount : Z) : option MeltInputs.t :=
  match cands with
  | [] => None
  | (input, value) :: rest =>
      let inputs := inputs ++ [input] in
      let inputsAmount := (inputsAmount + value)%Z in
      if (inputsAmount >=? amount)%Z then Some (MeltInputs.mk inputs inputsAmount)
      else take_until amount rest inputs inputsAmount
  end.

End Notions.

(** A mining service that accepts every submission (a response, with a time
    other than -1) and answers every status request with [timeout]. *)
Definition always_accepts (service : Service) : Prop :=
  forall n, exists response,
    submit_reply service n = Answer response
    /\ Qeq_bool (SubmitResponse.expected_total_time response) (-1) = false.

Definition always_times_out (service : Service) : Prop :=
  forall n, exists response,
    status_reply service n = Answer response
    /\ StatusResponse.status response = "timeout"%string.

(** The events that settle the promise of a [SendTransaction], and how many
    of them a log holds. *)
Definition is_terminal (a : Action) : bool :=
  match a with
  | Emit (success _) | Emit (send_error _) | Emit (unexpected_error _) => true
  | _ => false
  end.

Definition terminal_events (l : list (Stimulus * list Action)) : nat :=
  List.length (filter is_terminal (actions_of l)).

(** The delay asked of [setTimeout] is never below the polling floor, in
    milliseconds. *)
Definition respects_floor {constants : Constants} (a : Action) : Prop :=
  match a with
  | SetTimeout poll_time => (MIN_POLLING_INTERVAL * 1000 <= poll_time)%Q
  | _ => True
  end.

(** A job is submitted only by [start()] or on a status answer [timeout]:
    what an entry of a log says when it holds a submission. *)
Definition submitted_on_start_or_timeout (entry : Stimulus * list Action) : Prop :=
  existsb is_submission (snd entry) = true ->
  fst entry = Start
  \/ exists response,
       fst entry = JobStatusResponse response
       /\ StatusResponse.status response = "timeout"%string.

(** A mining service that answers every status request with a status other
    than [done] and [timeout], and a time other than -1. *)
Definition always_mining (service : Service) : Prop :=
  forall n, exists response,
    status_reply service n = Answer response
    /\ StatusResponse.status response <> "done"%string
    /\ StatusResponse.status response <> "timeout"%string
    /\ Qeq_bool (StatusResponse.expected_total_time response) (-1) = false.


(** How a run stands with its promise: before the end the promise is pending
    and no settling event was emitted; in [Done] the promise is resolved with
    the data of the one [success] emitted, which is the last thing done; in
    [Failed] it is rejected with the message of the one error event emitted,
    which is the last thing done. *)
Definition well_settled {T : Type} (r : Run (T := T)) : Prop :=
  match phase (object r), promise (object r) with
  | Done, Resolved data =>
      terminal_events (log r) = 1
      /\ exists before, actions_of (log r) = before ++ [Emit (success data)]
  | Failed, Rejected message =>
      terminal_events (log r) = 1
      /\ exists before,
           actions_of (log r) = before ++ [Emit (send_error message)]
           \/ actions_of (log r) = before ++ [Emit (unexpected_error message)]
  | Idle, Pending | Submitting, Pending | Polling _, Pending =>
      terminal_events (log r) = 0
  | _, _ => False
  end.

(** How a run stands with its attempts, [m] being the maximum it was made
    with: the counter is the number of submissions; past the first one a
    submission is made only within [m]; all submissions but the first are
    resubmissions. *)
Definition attempts_counted {T : Type} (m : Z) (r : Run (T := T)) : Prop :=
  maxTxMiningRetries (object r) = m
  /\ countTxMiningAttempts (object r) = Z.of_nat (submissions (log r))
  /\ (Z.of_nat (submissions (log r)) <= Z.max 1 m)%Z
  /\ resubmissions (log r) = submissions (log r) - 1
  /\ (phase (object r) = Idle -> submissions (log r) = 0)
  /\ (phase (object r) <> Idle -> 1 <= submissions (log r)).

(** Values to run the definitions on: the constants of the Hathor network, a
    four-byte stand-in for the checksum, and a network that accepts every
    submission. *)
Definition sample_constants : Constants := {|
  HATHOR_TOKEN_CONFIG := TokenConfig.mk "Hathor" "HTR" "00";
  TOKEN_CREATION_MASK := 1;
  TOKEN_MINT_MASK := 2;
  TOKEN_MELT_MASK := 4;
  AUTHORITY_TOKEN_DATA := 129;
  MIN_POLLING_INTERVAL := (1 # 2)%Q
|}.

(** A wallet whose data is its history, kept whole by the filter; every
    address is the wallet's, and an output is an authority output when the
    high bit of its [token_data] is set. *)
Definition sample_wallet_lib : WalletLib (list Tx.t) (list Tx.t) (list Tx.t) := {|
  getWalletData := fun w => Some w;
  historyTransactions := fun data => data;
  filterHistoryTransactions := fun history _ => history;
  isAuthorityOutput := fun txout => Z.testbit (TxOut.token_data txout) 7;
  isAddressMine := fun _ _ => true;
  getAddressToUse := fun w => ("WChange"%string, w)
|}.

(** The history of the spec's example: outputs of 30, 50 and 20 of token
    [01], after a voided transaction and beside an authority output and a
    spent one. *)
Definition sample_history : list Tx.t :=
  [ Tx.mk "aa" true [TxOut.mk 100 "01" 1 None (Decoded.mk "W1")];
    Tx.mk "bb" false [TxOut.mk 2 "01" 129 None (Decoded.mk "W1");
                      TxOut.mk 30 "01" 1 None (Decoded.mk "W2");
                      TxOut.mk 7 "01" 1 (Some "ee"%string) (Decoded.mk "W3");
                      TxOut.mk 50 "01" 1 None (Decoded.mk "W4")];
    Tx.mk "cc" false [TxOut.mk 20 "01" 1 None (Decoded.mk "W5")] ]%string.

Definition sample_transaction_lib : TransactionLib unit := {|
  getChecksum := fun data => firstn 4 (data ++ [x00; x00; x00; x00]);
  intToBytes := fun n _ => [match Byte.of_nat n with Some b => b | None => x00 end];
  hexToBuffer := fun s => list_byte_of_string s;
  sha256 := fun data => firstn 32 data;
  sendTransaction := fun _ _ n => (Resolved (Response.mk "00aa" "00bb"), n)
|}.

(** A world to run the examples in: the sample history, no stored token. *)
Definition sample_env : Env (list Tx.t) unit :=
  mkEnv sample_history tt (fun _ => None) [].

(** A network that accepts the first submission it sees and rejects the next
    ones, to run [createToken] into a failed mint. *)
Definition one_shot_transaction_lib : TransactionLib bool := {|
  getChecksum := @getChecksum unit sample_transaction_lib;
  intToBytes := @intToBytes unit sample_transaction_lib;
  hexToBuffer := @hexToBuffer unit sample_transaction_lib;
  sha256 := @sha256 unit sample_transaction_lib;
  sendTransaction := fun (_ : TxData.t) (_ : string) (used : bool) =>
    if used then (Rejected (Error.mk "rejected"), true)
    else (Resolved (Response.mk "00aa" "00bb"), true)
|}.

(** A mining service that accepts every job and answers every status request
    with [timeout], and one that has no miner. *)
Definition timing_out_service : Service := {|
  submit_reply := fun _ => Answer (SubmitResponse.mk 10 "job");
  status_reply := fun _ =>
    Answer (StatusResponse.mk "timeout" (MinedTx.mk "" [] 0 0) 10)
|}.

Definition no_miner_service : Service := {|
  submit_reply := fun _ => Answer (SubmitResponse.mk (-1) "job");
  status_reply := fun _ => TransportFailure
|}.

(** A registry of three tokens, the native one in the middle, and a world
    that has it stored. *)
Definition sample_registry : list TokenConfig.t :=
  [TokenConfig.mk "A" "AAA" "01"; TokenConfig.mk "Hathor" "HTR" "00";
   TokenConfig.mk "B" "BBB" "02"].

Definition sample_registry_env : Env (list Tx.t) unit :=
  mkEnv sample_history tt
        (storage_setItem "wallet:tokens" sample_registry (fun _ => None)) [].

(** A mining service whose jobs stay under way, and one whose first job is
    done at the first poll. *)
Definition mining_service : Service := {|
  submit_reply := fun _ => Answer (SubmitResponse.mk 10 "job");
  status_reply := fun _ =>
    Answer (StatusResponse.mk "mining" (MinedTx.mk "" [] 0 0) 4)
|}.

Definition done_service : Service := {|
  submit_reply := fun _ => Answer (SubmitResponse.mk 10 "job");
  status_reply := fun _ =>
    Answer (StatusResponse.mk "done" (MinedTx.mk "1f" ["p1"; "p2"]%string 1600000000 17) 0)
|}.

(** A mining service whose first two jobs time out and whose third is done. *)
Definition recovering_service : Service := {|
  submit_reply := fun n => Answer (SubmitResponse.mk 10 (if (n <? 2)%nat then "old" else "new"));
  status_reply := fun n =>
    if (n <? 2)%nat
    then Answer (StatusResponse.mk "timeout" (MinedTx.mk "" [] 0 0) 10)
    else Answer (StatusResponse.mk "done" (MinedTx.mk "1f" ["p1"; "p2"]%string 1600000000 17) 0)
|}.

(* ================================================================== *)
(** ** Facts about the string and array primitives                     *)
(* ================================================================== *)

Module JsFacts.
Import Js.
Local Open Scope string_scope.

Lemma split_nonempty (sep : ascii) (s : string) : split sep s <> [].
Proof.
  destruct s as [|c rest]; simpl; [discriminate|].
  destruct (Ascii.eqb c sep); [discriminate|].
  destruct (split sep rest); discriminate.
Qed.

Lemma split_length (sep : ascii) (s : string) :
  List.length (split sep s) = S (count_char sep s).
Proof.
  induction s as [|c rest IH]; simpl; [reflexivity|].
  destruct (Ascii.eqb c sep); simpl; [now rewrite IH|].
  destruct (split sep rest); simpl in *; [discriminate|exact IH].
Qed.

Lemma split_no_sep (sep : ascii) (s : string) :
  count_char sep s = 0 -> split sep s = [s].
Proof.
  induction s as [|c rest IH]; simpl; [reflexivity|].
  destruct (Ascii.eqb c sep); [discriminate|]. simpl.
  intros Hc. now rewrite (IH Hc).
Qed.

Lemma split_app_sep (sep : ascii) (a b : string) :
  split sep (a ++ String sep b) = (split sep a ++ split sep b)%list.
Proof.
  induction a as [|c rest IH]; simpl.
  - now rewrite Ascii.eqb_refl.
  - destruct (Ascii.eqb c sep); [now rewrite IH|].
    rewrite IH. pose proof (split_nonempty sep rest) as Hne.
    destruct (split sep rest); [contradiction|reflexivity].
Qed.

Lemma join_split (sep : ascii) (s : string) :
  join (String sep EmptyString) (split sep s) = s.
Proof.
  induction s as [|c rest IH]; simpl; [reflexivity|].
  pose proof (split_nonempty sep rest) as Hne.
  destruct (Ascii.eqb c sep) eqn:E.
  - apply Ascii.eqb_eq in E. subst c.
    destruct (split sep rest) as [|f fs]; [contradiction|].
    change (String sep (join (String sep EmptyString) (f :: fs)) = String sep rest).
    now rewrite IH.
  - destruct (split sep rest) as [|f fs]; [contradiction|].
    destruct fs as [|g gs]; simpl in *; now rewrite IH.
Qed.

Lemma append_assoc (a b c : string) : (a ++ b) ++ c = a ++ b ++ c.
Proof. induction a as [|d a IH]; simpl; [reflexivity|now rewrite IH]. Qed.

Lemma join_cons (sep a : string) (arr : list string) :
  arr <> [] -> join sep (a :: arr) = a ++ sep ++ join sep arr.
Proof. destruct arr; [contradiction|reflexivity]. Qed.

Lemma join_snoc (sep : string) (arr : list string) (x : string) :
  arr <> [] -> join sep (arr ++ [x]) = join sep arr ++ sep ++ x.
Proof.
  induction arr as [|a rest IH]; [contradiction|]. intros _.
  destruct rest as [|b rest]; [reflexivity|].
  change ((a :: b :: rest) ++ [x])%list with (a :: ((b :: rest) ++ [x]))%list.
  rewrite join_cons by (simpl; discriminate).
  rewrite IH by discriminate.
  rewrite (join_cons sep a (b :: rest)) by discriminate.
  now rewrite !append_assoc.
Qed.

Lemma pop_snoc {A : Type} (arr : list A) (x : A) : pop (arr ++ [x]) = (Some x, arr).
Proof.
  induction arr as [|a rest IH]; [reflexivity|].
  change (pop (a :: (rest ++ [x])) = (Some x, a :: rest)).
  simpl. rewrite IH. destruct (rest ++ [x])%list eqn:E; [|reflexivity].
  destruct rest; discriminate.
Qed.

Lemma splice_last_snoc {A : Type} (arr : list A) (x : A) :
  splice_last (arr ++ [x]) = ([x], arr).
Proof. unfold splice_last. now rewrite pop_snoc. Qed.

Lemma length_append (a b : string) :
  String.length (a ++ b) = String.length a + String.length b.
Proof. induction a as [|c a IH]; simpl; [reflexivity|now rewrite IH]. Qed.

Lemma count_char_append (c : ascii) (a b : string) :
  count_char c (a ++ b) = count_char c a + count_char c b.
Proof. induction a as [|d a IH]; simpl; [reflexivity|rewrite IH; lia]. Qed.

Lemma substring_prefix (a b : string) : substring 0 (String.length a) (a ++ b) = a.
Proof. induction a as [|c a IH]; simpl; [now destruct b|now rewrite IH]. Qed.

Lemma get_after (a : string) (d : ascii) (b : string) :
  String.get (String.length a) (a ++ String d b) = Some d.
Proof. induction a as [|c a IH]; simpl; [reflexivity|exact IH]. Qed.

(** A string whose last character is [d] ends with it. *)
Lemma get_last_inv (s : string) (d : ascii) :
  s <> EmptyString -> String.get (String.length s - 1) s = Some d ->
  exists init, s = init ++ String d EmptyString.
Proof.
  induction s as [|c rest IH]; [contradiction|]. intros _ Hget.
  destruct rest as [|c' rest'].
  - simpl in Hget. inversion Hget. now exists EmptyString.
  - assert (Hrest : String.get (String.length (String c' rest') - 1) (String c' rest') = Some d).
    { simpl in *. now rewrite Nat.sub_0_r in *. }
    destruct (IH ltac:(discriminate) Hrest) as [init Hinit].
    exists (String c init). simpl. now rewrite <- Hinit.
Qed.

Lemma slice_inner (c d : ascii) (inner : string) :
  slice (String c (inner ++ String d EmptyString)) 1 (-1) = inner.
Proof.
  unfold slice. cbv zeta.
  change (String.length (String c (inner ++ String d EmptyString)))
    with (S (String.length (inner ++ String d EmptyString))).
  rewrite length_append. simpl String.length.
  replace (1 <? 0)%Z with false by reflexivity.
  replace (-1 <? 0)%Z with true by reflexivity.
  rewrite Z.min_l by lia. rewrite Z.max_l by lia.
  replace (Z.to_nat 1) with 1 by reflexivity.
  replace (Z.to_nat (Z.of_nat (S (String.length inner + 1)) + -1 - 1))
    with (String.length inner) by lia.
  simpl. apply substring_prefix.
Qed.

Lemma byte_to_hex_no_colon (b : byte) : count_char ":" (byte_to_hex b) = 0.
Proof. destruct b; reflexivity. Qed.

Lemma toString_hex_no_colon (buf : list byte) : count_char ":" (toString_hex buf) = 0.
Proof.
  induction buf as [|b rest IH]; [reflexivity|].
  cbn [toString_hex]. now rewrite count_char_append, byte_to_hex_no_colon, IH.
Qed.

End JsFacts.

(* ================================================================== *)
(** ** The configuration string                                        *)
(* ================================================================== *)

Section ConfigurationStringFacts.
Import Js JsFacts.
Local Open Scope string_scope.

Context {Net : Type} {txlib : TransactionLib Net}.

(** The test [getTokenFromConfigurationString] opens with. *)
Let rejected_at_once (config : string) : bool :=
  (config =? "")
  || negb (char_is config 0 "[")
  || negb (char_is config (String.length config - 1) "]").

Lemma bracketed_passes (inner : string) :
  rejected_at_once (String "[" (inner ++ "]")) = false.
Proof.
  unfold rejected_at_once, char_is.
  replace (String.length (String "[" (inner ++ "]")) - 1) with (S (String.length inner))
    by (simpl; rewrite length_append; simpl; lia).
  change (String.get (S (String.length inner)) (String "[" (inner ++ "]")))
    with (String.get (String.length inner) (inner ++ String "]" EmptyString)).
  rewrite get_after. reflexivity.
Qed.

Lemma passes_bracketed (config : string) :
  rejected_at_once config = false -> exists inner, config = String "[" (inner ++ "]").
Proof.
  unfold rejected_at_once, char_is. intros G.
  apply orb_false_iff in G. destruct G as [G Hlast].
  apply orb_false_iff in G. destruct G as [Hne Hfirst].
  destruct config as [|c rest]; [discriminate|].
  simpl in Hfirst. apply negb_false_iff, Ascii.eqb_eq in Hfirst. subst c.
  apply negb_false_iff in Hlast.
  destruct (String.get (String.length (String "[" rest) - 1) (String "[" rest))
    as [d|] eqn:Hget; [|discriminate].
  apply Ascii.eqb_eq in Hlast. subst d.
  destruct (get_last_inv (String "[" rest) "]" ltac:(discriminate) Hget) as [init Hinit].
  destruct init as [|c init]; simpl in Hinit; [discriminate|].
  inversion Hinit. now exists init.
Qed.

Lemma rejected_is_null (config : string) :
  rejected_at_once config = true -> getTokenFromConfigurationString config = None.
Proof.
  unfold rejected_at_once, getTokenFromConfigurationString. intros G. now rewrite G.
Qed.

(** Past the brackets the array [configArr] is the split of what they hold. *)
Lemma too_few_fields_is_null (inner : string) :
  List.length (split ":" inner) < 4 ->
  getTokenFromConfigurationString (String "[" (inner ++ "]")) = None.
Proof.
  intros Hlen. unfold getTokenFromConfigurationString.
  fold (rejected_at_once (String "[" (inner ++ "]"))).
  rewrite bracketed_passes, slice_inner.
  apply Nat.ltb_lt in Hlen. now rewrite Hlen.
Qed.

Lemma wrong_checksum_is_null (inner : string) (fields : list string) (checksum : string) :
  split ":" inner = (fields ++ [checksum])%list ->
  toString_hex (getChecksum (Buffer_from (join ":" fields))) <> checksum ->
  getTokenFromConfigurationString (String "[" (inner ++ "]")) = None.
Proof.
  intros Hsplit Hsum. unfold getTokenFromConfigurationString.
  fold (rejected_at_once (String "[" (inner ++ "]"))).
  rewrite bracketed_passes, slice_inner, Hsplit. cbv zeta.
  destruct (List.length (fields ++ [checksum]) <? 4)%nat; [reflexivity|].
  rewrite splice_last_snoc. cbn [nth_error].
  apply String.eqb_neq in Hsum. now rewrite Hsum.
Qed.

(** The last field is the checksum, the two before it the symbol and the
    uid, and the fields before those are joined into the name. *)
Lemma fields_are_parsed (inner : string) (names : list string) (symbol uid checksum : string) :
  split ":" inner = (names ++ [symbol; uid; checksum])%list ->
  names <> [] ->
  toString_hex (getChecksum (Buffer_from (join ":" (names ++ [symbol; uid])))) = checksum ->
  getTokenFromConfigurationString (String "[" (inner ++ "]"))
  = Some (TokenConfig.mk (join ":" names) symbol uid).
Proof.
  intros Hsplit Hne Hsum. unfold getTokenFromConfigurationString.
  fold (rejected_at_once (String "[" (inner ++ "]"))).
  rewrite bracketed_passes, slice_inner, Hsplit. cbv zeta.
  assert (Hlen : (List.length (names ++ [symbol; uid; checksum]) <? 4)%nat = false).
  { apply Nat.ltb_ge. rewrite length_app. simpl.
    destruct names; [contradiction|simpl; lia]. }
  rewrite Hlen.
  change (names ++ [symbol; uid; checksum])%list
    with (names ++ [symbol; uid] ++ [checksum])%list.
  rewrite app_assoc, splice_last_snoc. cbn [nth_error].
  rewrite Hsum, String.eqb_refl. cbn [negb].
  change (names ++ [symbol; uid])%list with (names ++ [symbol] ++ [uid])%list.
  rewrite app_assoc, pop_snoc, pop_snoc. reflexivity.
Qed.

(** The fields of a rendered configuration string. *)
Lemma split_rendered (name symbol uid checksum : string) :
  count_char ":" symbol = 0 -> count_char ":" uid = 0 -> count_char ":" checksum = 0 ->
  split ":" ((name ++ ":" ++ symbol ++ ":" ++ uid) ++ ":" ++ checksum)
  = (split ":" name ++ [symbol; uid; checksum])%list.
Proof.
  intros Hs Hu Hc.
  change (":" ++ checksum) with (String ":" checksum).
  rewrite split_app_sep.
  change (":" ++ symbol ++ ":" ++ uid) with (String ":" (symbol ++ String ":" uid)).
  rewrite !split_app_sep.
  rewrite (split_no_sep _ _ Hs), (split_no_sep _ _ Hu), (split_no_sep _ _ Hc).
  now rewrite <- !app_assoc.
Qed.

Lemma join_rendered (name symbol uid : string) :
  join ":" (split ":" name ++ [symbol; uid]) = name ++ ":" ++ symbol ++ ":" ++ uid.
Proof.
  change (split ":" name ++ [symbol; uid])%list
    with (split ":" name ++ [symbol] ++ [uid])%list.
  rewrite app_assoc.
  rewrite join_snoc by (intros E; apply app_eq_nil in E; destruct E; discriminate).
  rewrite join_snoc by apply split_nonempty.
  rewrite join_split. now rewrite !append_assoc.
Qed.

Lemma rendered_is_parsed (uid name symbol : string) :
  count_char ":" symbol = 0 ->
  count_char ":" uid = 0 ->
  getTokenFromConfigurationString (getConfigurationString uid name symbol)
  = Some (TokenConfig.mk name symbol uid).
Proof.
  intros Hs Hu. unfold getConfigurationString. cbv zeta.
  set (partialConfig := name ++ ":" ++ symbol ++ ":" ++ uid).
  set (checksum := toString_hex (getChecksum (Buffer_from partialConfig))).
  replace ("[" ++ partialConfig ++ ":" ++ checksum ++ "]")
    with (String "[" ((partialConfig ++ ":" ++ checksum) ++ "]"))
    by (simpl; now rewrite !append_assoc).
  rewrite (fields_are_parsed _ (split ":" name) symbol uid checksum).
  - now rewrite join_split.
  - apply (split_rendered name symbol uid checksum); trivial.
    apply toString_hex_no_colon.
  - apply split_nonempty.
  - now rewrite join_rendered.
Qed.

(** C3, as amended.  For every name (colons and brackets allowed in it) and
    every symbol and uid that hold no colon, parsing the configuration string
    of [(uid, name, symbol)] gives back [{uid, name, symbol}]; and for every
    bracketed string with a right checksum, the parser takes the last field
    for the checksum, the two fields before it for the symbol and the uid, and
    joins the leading fields with colons into the name. *)
Theorem configuration_string_round_trip (uid name symbol : string) :
  count_char ":" symbol = 0 ->
  count_char ":" uid = 0 ->
  getTokenFromConfigurationString (getConfigurationString uid name symbol)
  = Some (TokenConfig.mk name symbol uid)
  /\ (forall (inner : string) (names : list string) (symbol' uid' checksum : string),
        split ":" inner = (names ++ [symbol'; uid'; checksum])%list ->
        names <> [] ->
        toString_hex (getChecksum (Buffer_from (join ":" (names ++ [symbol'; uid']))))
        = checksum ->
        getTokenFromConfigurationString ("[" ++ inner ++ "]")
        = Some (TokenConfig.mk (join ":" names) symbol' uid')).
Proof.
  intros Hs Hu. split.
  - now apply rendered_is_parsed.
  - intros inner names symbol' uid' checksum Hsplit Hne Hsum.
    now apply (fields_are_parsed inner names symbol' uid' checksum).
Qed.

(** C4.  [getTokenFromConfigurationString] is a total function, so it throws
    on no string; and it returns [null] on every string that is not of the
    form [[...]], or that holds fewer than three colons (fewer than four
    colon-separated fields), or whose last field differs from the checksum
    recomputed over everything before that field. *)
Theorem malformed_configuration_string_is_null (config : string) :
  (forall inner, config <> "[" ++ inner ++ "]")
  \/ count_char ":" config < 3
  \/ (exists body checksum,
        config = "[" ++ body ++ ":" ++ checksum ++ "]"
        /\ count_char ":" checksum = 0
        /\ toString_hex (getChecksum (Buffer_from body)) <> checksum) ->
  getTokenFromConfigurationString config = None.
Proof.
  intros [Hshape | [Hcount | (body & checksum & Hconfig & Hc & Hsum)]].
  - apply rejected_is_null.
    destruct (rejected_at_once config) eqn:G; [reflexivity|].
    destruct (passes_bracketed _ G) as [inner Hinner].
    now destruct (Hshape inner).
  - destruct (rejected_at_once config) eqn:G; [now apply rejected_is_null|].
    destruct (passes_bracketed _ G) as [inner Hinner]. subst config.
    apply too_few_fields_is_null. rewrite split_length.
    simpl in Hcount. rewrite count_char_append in Hcount. simpl in Hcount. lia.
  - subst config.
    replace ("[" ++ body ++ ":" ++ checksum ++ "]")
      with (String "[" ((body ++ String ":" checksum) ++ "]"))
      by (simpl; now rewrite !append_assoc).
    apply (wrong_checksum_is_null _ (split ":" body) checksum).
    + now rewrite split_app_sep, (split_no_sep _ _ Hc).
    + now rewrite join_split.
Qed.

End ConfigurationStringFacts.

Section ConfigurationStringExamples.
Import Js.
Local Open Scope string_scope.

Lemma configuration_string_round_trip_witness :
  getTokenFromConfigurationString (txlib := sample_transaction_lib)
    (getConfigurationString (txlib := sample_transaction_lib) "00ab" "My:Coin" "MYC")
  = Some (TokenConfig.mk "My:Coin" "MYC" "00ab").
Proof.
  apply (configuration_string_round_trip (txlib := sample_transaction_lib)
           "00ab" "My:Coin" "MYC"); reflexivity.
Defined.

(** C3, as the claim states it, fails on a symbol that holds a colon: whatever
    the checksum function, the string made for the symbol [M:YC] and the name
    [My] parses with the right checksum to the symbol [YC] and the name
    [My:M]. *)
Lemma round_trip_breaks_on_symbol_with_colon :
  (forall (Net : Type) (txlib : TransactionLib Net),
      getTokenFromConfigurationString (getConfigurationString "00ab" "My" "M:YC")
      = Some (TokenConfig.mk "My:M" "YC" "00ab"))
  /\ TokenConfig.mk "My:M" "YC" "00ab" <> TokenConfig.mk "My" "M:YC" "00ab".
Proof.
  split; [|discriminate].
  intros Net txlib.
  change (getConfigurationString "00ab" "My" "M:YC")
    with (getConfigurationString "00ab" "My:M" "YC").
  apply rendered_is_parsed; reflexivity.
Qed.

Lemma malformed_configuration_string_witness :
  getTokenFromConfigurationString (txlib := sample_transaction_lib)
    "My:Coin:MYC:00ab:4d793a43" = None
  /\ getTokenFromConfigurationString (txlib := sample_transaction_lib)
       "[MYC:00ab:4d793a43]" = None
  /\ getTokenFromConfigurationString (txlib := sample_transaction_lib)
       "[My:Coin:MYC:00ab:4d793a44]" = None.
Proof.
  split; [|split]; apply malformed_configuration_string_is_null.
  - left. intros inner E. discriminate E.
  - right. left. simpl. lia.
  - right. right. exists "My:Coin:MYC:00ab", "4d793a44".
    split; [reflexivity|]. split; [reflexivity|]. vm_compute. discriminate.
Defined.

End ConfigurationStringExamples.

(* ================================================================== *)
(** ** The token index                                                 *)
(* ================================================================== *)

Section TokenIndexFacts.

Context {constants : Constants}.

Lemma findIndex_from_first {A : Type} (p : A -> bool) (pre : list A) (x : A) (post : list A)
    (i : Z) :
  (forall y, In y pre -> p y = false) -> p x = true ->
  findIndex_from p (pre ++ x :: post) i = (i + Z.of_nat (List.length pre))%Z.
Proof.
  revert i. induction pre as [|y pre IH]; intros i Hpre Hx; simpl.
  - rewrite Hx. lia.
  - rewrite (Hpre y) by now left.
    rewrite IH; [lia| |exact Hx]. intros z Hz. apply Hpre. now right.
Qed.

Lemma findIndex_from_none {A : Type} (p : A -> bool) (arr : list A) (i : Z) :
  (forall y, In y arr -> p y = false) -> findIndex_from p arr i = (-1)%Z.
Proof.
  revert i. induction arr as [|y arr IH]; intros i Hall; simpl; [reflexivity|].
  rewrite (Hall y) by now left. apply IH. intros z Hz. apply Hall. now right.
Qed.

(** The first place where a uid stands in a list of configurations. *)
Lemma first_occurrence (tokens : list TokenConfig.t) (uid : string) :
  In uid (map TokenConfig.uid tokens) ->
  exists before t after,
    tokens = before ++ t :: after
    /\ TokenConfig.uid t = uid
    /\ (forall x, In x before -> TokenConfig.uid x <> uid).
Proof.
  induction tokens as [|t0 tokens IH]; [contradiction|]. intros Hin.
  destruct (string_dec (TokenConfig.uid t0) uid) as [E|N].
  - exists [], t0, tokens. repeat split; trivial. contradiction.
  - destruct Hin as [E|Hin]; [contradiction|].
    destruct (IH Hin) as (before & t & after & Ht & Hu & Hfirst).
    exists (t0 :: before), t, after. subst tokens. repeat split; trivial.
    intros x [<-|Hx]; [exact N|now apply Hfirst].
Qed.

(** C9.  [getTokenIndex] gives 0 for the uid of the native token; for another
    uid that stands in the list, one plus the number of non-native tokens
    before its first occurrence, which is its 1-based position once the native
    token is removed; and 0, with no error, for a uid that is not in the list. *)
Theorem getTokenIndex_spec (tokens : list TokenConfig.t) (uid : string) :
  (uid = TokenConfig.uid HATHOR_TOKEN_CONFIG -> getTokenIndex tokens uid = 0%Z)
  /\ (uid <> TokenConfig.uid HATHOR_TOKEN_CONFIG ->
      In uid (map TokenConfig.uid tokens) ->
      exists before t after,
        tokens = before ++ t :: after
        /\ TokenConfig.uid t = uid
        /\ (forall x, In x before -> TokenConfig.uid x <> uid)
        /\ non_native tokens = non_native before ++ t :: non_native after
        /\ getTokenIndex tokens uid = (Z.of_nat (List.length (non_native before)) + 1)%Z)
  /\ (uid <> TokenConfig.uid HATHOR_TOKEN_CONFIG ->
      ~ In uid (map TokenConfig.uid tokens) ->
      getTokenIndex tokens uid = 0%Z).
Proof.
  unfold getTokenIndex, findIndex, filterTokens. repeat split.
  - intros ->. now rewrite String.eqb_refl.
  - intros Hnative Hin.
    destruct (first_occurrence tokens uid Hin) as (before & t & after & Ht & Hu & Hfirst).
    exists before, t, after.
    assert (Hkeep : negb (String.eqb (TokenConfig.uid t) (TokenConfig.uid HATHOR_TOKEN_CONFIG))
                    = true).
    { apply negb_true_iff, String.eqb_neq. now rewrite Hu. }
    assert (Hfilter : non_native tokens = non_native before ++ t :: non_native after).
    { unfold non_native. subst tokens. rewrite filter_app. simpl. now rewrite Hkeep. }
    repeat split; trivial.
    apply String.eqb_neq in Hnative. rewrite Hnative.
    fold (non_native tokens). rewrite Hfilter.
    rewrite findIndex_from_first; [lia| |now apply String.eqb_eq].
    intros y Hy. apply String.eqb_neq. apply Hfirst.
    unfold non_native in Hy. now apply filter_In in Hy.
  - intros Hnative Hout.
    apply String.eqb_neq in Hnative. rewrite Hnative.
    rewrite findIndex_from_none; [reflexivity|].
    intros y Hy. apply String.eqb_neq. intros E. apply Hout.
    apply filter_In in Hy. apply in_map_iff. exists y. now split.
Qed.

End TokenIndexFacts.

Lemma getTokenIndex_spec_witness :
  getTokenIndex (constants := sample_constants)
    [TokenConfig.mk "A" "AAA" "01"; TokenConfig.mk "Hathor" "HTR" "00";
     TokenConfig.mk "B" "BBB" "02"] "00" = 0%Z
  /\ (exists before t after,
        [TokenConfig.mk "A" "AAA" "01"; TokenConfig.mk "Hathor" "HTR" "00";
         TokenConfig.mk "B" "BBB" "02"] = before ++ t :: after
        /\ TokenConfig.uid t = "02"%string
        /\ (forall x, In x before -> TokenConfig.uid x <> "02"%string)
        /\ non_native (constants := sample_constants)
             [TokenConfig.mk "A" "AAA" "01"; TokenConfig.mk "Hathor" "HTR" "00";
              TokenConfig.mk "B" "BBB" "02"]
           = non_native (constants := sample_constants) before
             ++ t :: non_native (constants := sample_constants) after
        /\ getTokenIndex (constants := sample_constants)
             [TokenConfig.mk "A" "AAA" "01"; TokenConfig.mk "Hathor" "HTR" "00";
              TokenConfig.mk "B" "BBB" "02"] "02"
           = (Z.of_nat (List.length (non_native (constants := sample_constants) before))
              + 1)%Z)
  /\ getTokenIndex (constants := sample_constants)
       [TokenConfig.mk "A" "AAA" "01"; TokenConfig.mk "Hathor" "HTR" "00";
        TokenConfig.mk "B" "BBB" "02"] "03" = 0%Z.
Proof.
  pose proof (getTokenIndex_spec (constants := sample_constants)
                [TokenConfig.mk "A" "AAA" "01"; TokenConfig.mk "Hathor" "HTR" "00";
                 TokenConfig.mk "B" "BBB" "02"]) as Hspec.
  split; [|split].
  - apply (proj1 (Hspec "00"%string)). reflexivity.
  - apply (proj1 (proj2 (Hspec "02"%string))); [discriminate|]. simpl. tauto.
  - apply (proj2 (proj2 (Hspec "03"%string))); [discriminate|].
    simpl. intros [E | [E | [E | []]]]; discriminate E.
Defined.

(** The token [02] above is second once the native token is removed. *)
Example getTokenIndex_of_second :
  getTokenIndex (constants := sample_constants)
    [TokenConfig.mk "A" "AAA" "01"; TokenConfig.mk "Hathor" "HTR" "00";
     TokenConfig.mk "B" "BBB" "02"] "02" = 2%Z.
Proof. reflexivity. Qed.

(* ================================================================== *)
(** ** The selector of melt inputs                                     *)
(* ================================================================== *)

Section SelectorFacts.

Context {W D Hist : Type} {walletlib : WalletLib W D Hist}.

Lemma total_cons (c : Input.t * Z) (l : list (Input.t * Z)) :
  total (c :: l) = (snd c + total l)%Z.
Proof. reflexivity. Qed.

Lemma numbered_cons {A : Type} (i : nat) (x : A) (l : list A) :
  numbered i (x :: l) = (i, x) :: numbered (S i) l.
Proof. reflexivity. Qed.

Lemma output_candidates_cons (data : D) (token tx_id : string) (i : nat) (txout : TxOut.t)
    (rest : list TxOut.t) :
  output_candidates data token tx_id i (txout :: rest)
  = if spendable data token txout
    then (Input.mk tx_id i token (Decoded.address (TxOut.decoded txout)), TxOut.value txout)
         :: output_candidates data token tx_id (S i) rest
    else output_candidates data token tx_id (S i) rest.
Proof.
  unfold output_candidates. rewrite numbered_cons. cbn [filter snd].
  now destruct (spendable data token txout).
Qed.

(** The inner loop takes the candidates of the outputs it walks. *)
Lemma outputs_loop (data : D) (amount : Z) (token tx_id : string) (outputs : list TxOut.t) :
  forall (i : nat) (inputs : list Input.t) (inputsAmount : Z),
    getMeltInputs_outputs data amount token tx_id outputs i inputs inputsAmount
    = match take_until amount (output_candidates data token tx_id i outputs)
              inputs inputsAmount with
      | Some result => inl result
      | None => inr (inputs ++ map fst (output_candidates data token tx_id i outputs),
                     (inputsAmount + total (output_candidates data token tx_id i outputs))%Z)
      end.
Proof.
  induction outputs as [|txout rest IH]; intros i inputs inputsAmount.
  - simpl. now rewrite app_nil_r, Z.add_0_r.
  - cbn [getMeltInputs_outputs]. rewrite output_candidates_cons. unfold spendable.
    destruct (isAuthorityOutput txout); cbn [negb andb]; [apply IH|].
    destruct (match TxOut.spent_by txout with None => true | Some _ => false end
              && String.eqb (TxOut.token txout) token
              && isAddressMine (Decoded.address (TxOut.decoded txout)) data);
      [|apply IH].
    cbn [map fst snd take_until].
    destruct (inputsAmount + TxOut.value txout >=? amount)%Z; [reflexivity|].
    rewrite IH.
    destruct (take_until _ _ _ _); [reflexivity|].
    rewrite <- app_assoc, total_cons. cbn [snd app]. now rewrite Z.add_assoc.
Qed.

Lemma take_until_app (amount : Z) (c1 c2 : list (Input.t * Z)) :
  forall (inputs : list Input.t) (inputsAmount : Z),
    take_until amount (c1 ++ c2) inputs inputsAmount
    = match take_until amount c1 inputs inputsAmount with
      | Some result => Some result
      | None => take_until amount c2 (inputs ++ map fst c1) (inputsAmount + total c1)%Z
      end.
Proof.
  induction c1 as [|[input value] c1 IH]; intros inputs inputsAmount.
  - simpl. now rewrite app_nil_r, Z.add_0_r.
  - cbn [app take_until].
    destruct (inputsAmount + value >=? amount)%Z; [reflexivity|].
    rewrite IH. destruct (take_until amount c1 _ _); [reflexivity|].
    rewrite <- app_assoc, total_cons. cbn [map fst snd app]. now rewrite Z.add_assoc.
Qed.

(** The outer loop takes the candidates of the history it walks. *)
Lemma history_loop (data : D) (amount : Z) (token : string) (history : list Tx.t) :
  forall (inputs : list Input.t) (inputsAmount : Z),
    getMeltInputs_history data amount token history inputs inputsAmount
    = take_until amount (candidates data token history) inputs inputsAmount.
Proof.
  induction history as [|tx rest IH]; intros inputs inputsAmount; [reflexivity|].
  cbn [getMeltInputs_history candidates flat_map]. fold (candidates data token rest).
  destruct (Tx.is_voided tx).
  - cbn [app]. apply IH.
  - rewrite outputs_loop, take_until_app.
    destruct (take_until amount (output_candidates _ _ _ _ _) _ _); [reflexivity|].
    apply IH.
Qed.

(** Taking until the total reaches the amount takes the shortest non-empty
    prefix that reaches it. *)
Lemma take_until_prefix (amount : Z) (cands : list (Input.t * Z)) :
  forall (inputs : list Input.t) (inputsAmount : Z),
    match take_until amount cands inputs inputsAmount with
    | Some r =>
        exists taken rest,
          cands = taken ++ rest
          /\ taken <> []
          /\ MeltInputs.inputs r = inputs ++ map fst taken
          /\ MeltInputs.inputsAmount r = (inputsAmount + total taken)%Z
          /\ (amount <= MeltInputs.inputsAmount r)%Z
          /\ (forall shorter more,
                taken = shorter ++ more -> shorter <> [] -> more <> [] ->
                (inputsAmount + total shorter < amount)%Z)
    | None =>
        forall taken rest,
          cands = taken ++ rest -> taken <> [] -> (inputsAmount + total taken < amount)%Z
    end.
Proof.
  induction cands as [|[input value] cands IH]; intros inputs inputsAmount.
  - simpl. intros taken rest E Hne. symmetry in E.
    apply app_eq_nil in E. now destruct E.
  - cbn [take_until].
    destruct (inputsAmount + value >=? amount)%Z eqn:Hreach.
    + exists [(input, value)], cands. cbn [MeltInputs.inputs MeltInputs.inputsAmount].
      repeat split; try discriminate.
      * rewrite total_cons. cbn. lia.
      * apply Z.geb_le in Hreach. lia.
      * intros shorter more E Hs Hm.
        destruct shorter as [|s shorter]; [contradiction|].
        destruct shorter; destruct more; try contradiction; discriminate.
    + assert (Hshort : (inputsAmount + value < amount)%Z).
      { rewrite Z.geb_leb in Hreach. now apply Z.leb_gt in Hreach. }
      specialize (IH (inputs ++ [input]) (inputsAmount + value)%Z).
      destruct (take_until amount cands _ _) as [r|].
      * destruct IH as (taken & rest & Hc & Hne & Hin & Htot & Hle & Hmin).
        exists ((input, value) :: taken), rest. subst cands.
        repeat split; try discriminate; trivial.
        -- rewrite Hin, <- app_assoc. reflexivity.
        -- rewrite Htot, total_cons. cbn [snd]. lia.
        -- intros shorter more E Hs Hm.
           destruct shorter as [|s shorter]; [contradiction|].
           inversion E; subst s. rewrite total_cons. cbn [snd].
           destruct shorter as [|s' shorter].
           ++ cbn. lia.
           ++ specialize (Hmin (s' :: shorter) more H1 ltac:(discriminate) Hm). lia.
      * intros taken rest E Hne.
        destruct taken as [|t taken]; [contradiction|].
        inversion E; subst t. rewrite total_cons. cbn [snd].
        destruct taken as [|t' taken].
        -- cbn. lia.
        -- specialize (IH (t' :: taken) rest H1 ltac:(discriminate)). lia.
Qed.

Lemma in_numbered {A : Type} (l : list A) :
  forall (k i : nat) (x : A),
    In (i, x) (numbered k l) <-> k <= i /\ nth_error l (i - k) = Some x.
Proof.
  induction l as [|a l IH]; intros k i x.
  - unfold numbered. simpl. split; [contradiction|].
    intros [_ Hn]. now destruct (i - k).
  - rewrite numbered_cons. simpl. rewrite IH. split.
    + intros [E | [Hle Hn]].
      * inversion E; subst. split; [lia|]. now rewrite Nat.sub_diag.
      * split; [lia|]. now replace (i - k) with (S (i - S k)) by lia.
    + intros [Hle Hn]. destruct (Nat.eq_dec i k) as [->|Hne].
      * rewrite Nat.sub_diag in Hn. simpl in Hn. inversion Hn. now left.
      * right. split; [lia|].
        now replace (i - k) with (S (i - S k)) in Hn by lia.
Qed.

(** The candidates of a history are its spendable outputs in transactions
    that are not voided, each with its transaction and position. *)
Lemma in_candidates (data : D) (token : string) (history : list Tx.t)
    (input : Input.t) (value : Z) :
  In (input, value) (candidates data token history)
  <-> exists tx i txout,
        In tx history
        /\ Tx.is_voided tx = false
        /\ nth_error (Tx.outputs tx) i = Some txout
        /\ spendable data token txout = true
        /\ input = Input.mk (Tx.tx_id tx) i token (Decoded.address (TxOut.decoded txout))
        /\ value = TxOut.value txout.
Proof.
  unfold candidates. rewrite in_flat_map. split.
  - intros (tx & Htx & Hin). destruct (Tx.is_voided tx) eqn:Hv; [contradiction|].
    unfold output_candidates in Hin. apply in_map_iff in Hin.
    destruct Hin as ([i txout] & E & Hin). apply filter_In in Hin.
    destruct Hin as [Hin Hsp]. apply in_numbered in Hin. destruct Hin as [_ Hn].
    rewrite Nat.sub_0_r in Hn. cbn [fst snd] in *. inversion E.
    now exists tx, i, txout.
  - intros (tx & i & txout & Htx & Hv & Hn & Hsp & -> & ->).
    exists tx. split; [exact Htx|]. rewrite Hv.
    unfold output_candidates. apply in_map_iff. exists (i, txout).
    split; [reflexivity|]. apply filter_In. split; [|exact Hsp].
    apply in_numbered. split; [lia|]. now rewrite Nat.sub_0_r.
Qed.

(** For every amount: with wallet data at hand, [getMeltInputs] walks the
    candidates of the filtered history in order, comparing the running total
    with [amount] after each one it takes: it returns the shortest non-empty
    prefix of them whose total reaches [amount], with [inputsAmount] their
    sum, and [null] when no non-empty prefix reaches it.  The candidates are
    exactly the
    outputs of the transactions of the filtered history that are not voided,
    that are of the token, are not authority outputs, are unspent and are at
    an address of the wallet. *)
Theorem getMeltInputs_spec (w : W) (data : D) (amount : Z) (token : string) :
  getWalletData w = Some data ->
  let history := filterHistoryTransactions (historyTransactions data) token in
  selects (candidates data token history) amount (getMeltInputs amount token w)
  /\ (forall input value,
        In (input, value) (candidates data token history)
        <-> exists tx i txout,
              In tx history
              /\ Tx.is_voided tx = false
              /\ nth_error (Tx.outputs tx) i = Some txout
              /\ (isAuthorityOutput txout = false
                  /\ TxOut.spent_by txout = None
                  /\ TxOut.token txout = token
                  /\ isAddressMine (Decoded.address (TxOut.decoded txout)) data = true)
              /\ input = Input.mk (Tx.tx_id tx) i token
                           (Decoded.address (TxOut.decoded txout))
              /\ value = TxOut.value txout).
Proof.
  intros Hdata history. split.
  - unfold getMeltInputs. rewrite Hdata. cbv zeta. fold history.
    rewrite history_loop. unfold selects.
    pose proof (take_until_prefix amount (candidates data token history) [] 0%Z) as Hp.
    destruct (take_until amount _ [] 0%Z) as [r|].
    + destruct Hp as (taken & rest & Hc & Hne & Hin & Htot & Hle & Hmin).
      exists taken, rest.
      split; [exact Hc|]. split; [exact Hne|]. split; [exact Hin|].
      split; [rewrite Htot; lia|]. split; [exact Hle|].
      intros shorter more E Hs Hm. specialize (Hmin shorter more E Hs Hm). lia.
    + intros taken rest E Hne. specialize (Hp taken rest E Hne). lia.
  - intros input value. rewrite in_candidates.
    assert (Hsp : forall txout,
               spendable data token txout = true
               <-> isAuthorityOutput txout = false
                   /\ TxOut.spent_by txout = None
                   /\ TxOut.token txout = token
                   /\ isAddressMine (Decoded.address (TxOut.decoded txout)) data = true).
    { intros txout. unfold spendable.
      rewrite !andb_true_iff, negb_true_iff, String.eqb_eq.
      destruct (TxOut.spent_by txout); intuition (congruence || discriminate). }
    split; intros (tx & i & txout & Htx & Hv & Hn & H & Hi & Hval);
      exists tx, i, txout; repeat split; trivial; apply Hsp in H; tauto || apply H.
Qed.

(** For a positive amount the empty prefix never reaches the amount, so the
    two readings of the selection agree. *)
Lemma selects_positive (cands : list (Input.t * Z)) (amount : Z)
    (result : option MeltInputs.t) :
  (0 < amount)%Z -> selects cands amount result ->
  selects_as_soon_as_reached cands amount result.
Proof.
  intros Hpos. destruct result as [r|]; cbn [selects selects_as_soon_as_reached].
  - intros (taken & rest & Hc & Hne & Hin & Htot & Hle & Hmin).
    exists taken, rest. repeat split; trivial.
    intros shorter more E Hm. destruct shorter as [|c shorter]; [cbn; lia|].
    apply (Hmin (c :: shorter) more E); [discriminate|exact Hm].
  - intros Hall taken rest E. destruct taken as [|c taken]; [cbn; lia|].
    apply (Hall (c :: taken) rest E). discriminate.
Qed.

(** C1, as amended.  With wallet data at hand and a positive target amount,
    [getMeltInputs] accumulates, in the order of the filtered history, exactly
    the outputs of the transactions that are not voided, that are of the
    token, are not authority outputs, are unspent and are at an address of the
    wallet; it stops as soon as the running total reaches or exceeds the
    amount, returning those inputs with [inputsAmount] their sum (the shortest
    prefix of the candidates whose total reaches the amount), and it returns
    [null] when the whole history is gone through without the total reaching
    the amount. *)
Theorem getMeltInputs_positive_target (w : W) (data : D) (amount : Z) (token : string) :
  getWalletData w = Some data ->
  (0 < amount)%Z ->
  let history := filterHistoryTransactions (historyTransactions data) token in
  selects_as_soon_as_reached (candidates data token history) amount
    (getMeltInputs amount token w)
  /\ (forall input value,
        In (input, value) (candidates data token history)
        <-> exists tx i txout,
              In tx history
              /\ Tx.is_voided tx = false
              /\ nth_error (Tx.outputs tx) i = Some txout
              /\ (isAuthorityOutput txout = false
                  /\ TxOut.spent_by txout = None
                  /\ TxOut.token txout = token
                  /\ isAddressMine (Decoded.address (TxOut.decoded txout)) data = true)
              /\ input = Input.mk (Tx.tx_id tx) i token
                           (Decoded.address (TxOut.decoded txout))
              /\ value = TxOut.value txout).
Proof.
  intros Hdata Hpos history.
  destruct (getMeltInputs_spec w data amount token Hdata) as [Hsel Hcands].
  split; [|exact Hcands]. now apply selects_positive.
Qed.

End SelectorFacts.

(** The example of the spec: of the outputs 30, 50 and 20, a target of 40
    takes the first two, 80 in all. *)
Example getMeltInputs_30_50_20 :
  getMeltInputs (walletlib := sample_wallet_lib) 40 "01" sample_history
  = Some (MeltInputs.mk [Input.mk "bb" 1 "01" "W2"; Input.mk "bb" 3 "01" "W4"] 80).
Proof. reflexivity. Qed.

Lemma getMeltInputs_spec_witness :
  selects (candidates (walletlib := sample_wallet_lib) sample_history "01" sample_history)
          40 (getMeltInputs (walletlib := sample_wallet_lib) 40 "01" sample_history).
Proof.
  apply (proj1 (getMeltInputs_spec (walletlib := sample_wallet_lib) sample_history
                  sample_history 40 "01" eq_refl)).
Defined.

Lemma getMeltInputs_positive_target_witness :
  selects_as_soon_as_reached
    (candidates (walletlib := sample_wallet_lib) sample_history "01" sample_history)
    40 (getMeltInputs (walletlib := sample_wallet_lib) 40 "01" sample_history).
Proof.
  apply (proj1 (getMeltInputs_positive_target (walletlib := sample_wallet_lib)
                  sample_history sample_history 40 "01" eq_refl ltac:(lia))).
Defined.

(** C1, as the claim states it, fails at the target 0, which the running
    total reaches before any output is taken: on the sample history the
    selector still takes the first candidate and returns it with a total of
    30, and on an empty history it returns [null]. *)
Lemma getMeltInputs_target_zero :
  getMeltInputs (walletlib := sample_wallet_lib) 0 "01" sample_history
  = Some (MeltInputs.mk [Input.mk "bb" 1 "01" "W2"] 30)
  /\ (selects_as_soon_as_reached
        (candidates (walletlib := sample_wallet_lib) sample_history "01" sample_history)
        0 (getMeltInputs (walletlib := sample_wallet_lib) 0 "01" sample_history) -> False)
  /\ getMeltInputs (walletlib := sample_wallet_lib) 0 "01" [] = None
  /\ (selects_as_soon_as_reached
        (candidates (walletlib := sample_wallet_lib) [] "01" [])
        0 (getMeltInputs (walletlib := sample_wallet_lib) 0 "01" []) -> False).
Proof.
  split; [reflexivity|]. split; [|split; [reflexivity|]].
  - change (getMeltInputs (walletlib := sample_wallet_lib) 0 "01" sample_history)
      with (Some (MeltInputs.mk [Input.mk "bb" 1 "01" "W2"] 30)).
    intros (taken & rest & _ & Hin & _ & _ & Hmin).
    destruct taken as [|c taken]; [discriminate Hin|].
    specialize (Hmin [] (c :: taken) eq_refl ltac:(discriminate)). cbn in Hmin. lia.
  - change (getMeltInputs (walletlib := sample_wallet_lib) 0 "01" []) with (@None MeltInputs.t).
    intros Hall. specialize (Hall [] [] eq_refl). cbn in Hall. lia.
Qed.

Lemma getMeltInputs_no_wallet_data {W D Hist : Type} {walletlib : WalletLib W D Hist}
    (w : W) (amount : Z) (token : string) :
  getWalletData w = None -> getMeltInputs amount token w = None.
Proof. intros E. unfold getMeltInputs. now rewrite E. Qed.

(* ================================================================== *)
(** ** Melting                                                         *)
(* ================================================================== *)

Section MeltFacts.

Context {W D Hist Net : Type}.
Context {constants : Constants} {txlib : TransactionLib Net} {walletlib : WalletLib W D Hist}.

(** C5.  When the selector returns [null], [meltTokens] returns [null] and
    leaves everything as it was, the list of submissions included; when the
    selected inputs total more than the amount, it makes one submission, whose
    outputs start with a change output of the surplus, to the address the
    wallet gives, with token data 1. *)
Theorem meltTokens_needs_inputs_and_gives_change (txId : string) (index : nat)
    (addressSpent token : string) (amount : Z) (pin : string) (createAnotherMelt : bool)
    (env : Env W Net) :
  (getMeltInputs amount token (wallet env) = None ->
   meltTokens txId index addressSpent token amount pin createAnotherMelt env = (None, env))
  /\ (forall result,
        getMeltInputs amount token (wallet env) = Some result ->
        (amount < MeltInputs.inputsAmount result)%Z ->
        exists promise env' more,
          meltTokens txId index addressSpent token amount pin createAnotherMelt env
          = (Some promise, env')
          /\ submitted env'
             = submitted env
               ++ [(TxData.mk
                      (Input.mk txId index token addressSpent :: MeltInputs.inputs result)
                      (Output.mk (fst (getAddressToUse (wallet env)))
                                 (MeltInputs.inputsAmount result - amount) 1 :: more)
                      [UidString token],
                    pin)]).
Proof.
  split.
  - intros Hnone. unfold meltTokens. now rewrite Hnone.
  - intros result Hsome Hmore. unfold meltTokens. rewrite Hsome.
    apply Z.gtb_lt in Hmore. rewrite Hmore.
    unfold bind, ret, wallet_getAddressToUse, transaction_sendTransaction.
    destruct (getAddressToUse (wallet env)) as [newAddress w1] eqn:Ha.
    simpl.
    destruct createAnotherMelt.
    + simpl. destruct (getAddressToUse w1) as [newAddress2 w2]. simpl.
      match goal with
      | |- context [sendTransaction ?data ?p ?n] =>
          destruct (sendTransaction data p n) as [promise n']
      end.
      now eexists _, _, _.
    + simpl.
      match goal with
      | |- context [sendTransaction ?data ?p ?n] =>
          destruct (sendTransaction data p n) as [promise n']
      end.
      now eexists _, _, _.
Qed.

(** C10.  When the selected inputs total exactly the amount and no new melt
    authority is asked for, [meltTokens] makes one submission: the authority
    input followed by the selected inputs, no output, and the token alone in
    the token list; no address of the wallet is used. *)
Theorem meltTokens_exact_amount_has_no_output (txId : string) (index : nat)
    (addressSpent token : string) (amount : Z) (pin : string) (env : Env W Net)
    (result : MeltInputs.t) :
  getMeltInputs amount token (wallet env) = Some result ->
  MeltInputs.inputsAmount result = amount ->
  let newTxData :=
    TxData.mk (Input.mk txId index token addressSpent :: MeltInputs.inputs result)
              [] [UidString token] in
  meltTokens txId index addressSpent token amount pin false env
  = (Some (fst (sendTransaction newTxData pin (net env))),
     mkEnv (wallet env) (snd (sendTransaction newTxData pin (net env))) (storage env)
           (submitted env ++ [(newTxData, pin)])).
Proof.
  intros Hsome Hexact newTxData. unfold meltTokens. rewrite Hsome.
  replace (MeltInputs.inputsAmount result >? amount)%Z with false
    by (symmetry; rewrite Z.gtb_ltb; apply Z.ltb_ge; lia).
  unfold bind, ret, transaction_sendTransaction. fold newTxData.
  now destruct (sendTransaction newTxData pin (net env)).
Qed.

End MeltFacts.

Lemma meltTokens_needs_inputs_and_gives_change_witness :
  meltTokens (constants := sample_constants) (txlib := sample_transaction_lib)
    (walletlib := sample_wallet_lib) "dd" 0 "W0" "01" 1000 "1234" true sample_env
  = (None, sample_env)
  /\ exists promise env' more,
       meltTokens (constants := sample_constants) (txlib := sample_transaction_lib)
         (walletlib := sample_wallet_lib) "dd" 0 "W0" "01" 40 "1234" true sample_env
       = (Some promise, env')
       /\ submitted env'
          = submitted sample_env
            ++ [(TxData.mk [Input.mk "dd" 0 "01" "W0"; Input.mk "bb" 1 "01" "W2";
                            Input.mk "bb" 3 "01" "W4"]
                           (Output.mk "WChange" (80 - 40) 1 :: more) [UidString "01"],
                 "1234"%string)].
Proof.
  split.
  - apply (meltTokens_needs_inputs_and_gives_change (constants := sample_constants)
             (txlib := sample_transaction_lib) (walletlib := sample_wallet_lib)).
    reflexivity.
  - apply (proj2 (meltTokens_needs_inputs_and_gives_change (constants := sample_constants)
                    (txlib := sample_transaction_lib) (walletlib := sample_wallet_lib)
                    "dd" 0 "W0" "01" 40 "1234" true sample_env)
                 (MeltInputs.mk [Input.mk "bb" 1 "01" "W2"; Input.mk "bb" 3 "01" "W4"] 80)
                 eq_refl eq_refl).
Defined.

(** The example of the spec melted: 40 of the 80 selected come back as change. *)
Example meltTokens_40_of_80 :
  submitted (snd (meltTokens (constants := sample_constants)
                    (txlib := sample_transaction_lib) (walletlib := sample_wallet_lib)
                    "dd" 0 "W0" "01" 40 "1234" false sample_env))
  = [(TxData.mk [Input.mk "dd" 0 "01" "W0"; Input.mk "bb" 1 "01" "W2";
                 Input.mk "bb" 3 "01" "W4"]
                [Output.mk "WChange" 40 1] [UidString "01"], "1234"%string)].
Proof. reflexivity. Qed.

Lemma meltTokens_exact_amount_has_no_output_witness :
  meltTokens (constants := sample_constants) (txlib := sample_transaction_lib)
    (walletlib := sample_wallet_lib) "dd" 0 "W0" "01" 80 "1234" false sample_env
  = (Some (Resolved (Response.mk "00aa" "00bb")),
     mkEnv sample_history tt (storage sample_env)
       [(TxData.mk [Input.mk "dd" 0 "01" "W0"; Input.mk "bb" 1 "01" "W2";
                    Input.mk "bb" 3 "01" "W4"] [] [UidString "01"], "1234"%string)]).
Proof.
  apply (meltTokens_exact_amount_has_no_output (constants := sample_constants)
           (txlib := sample_transaction_lib) (walletlib := sample_wallet_lib)
           "dd" 0 "W0" "01" 80 "1234" sample_env
           (MeltInputs.mk [Input.mk "bb" 1 "01" "W2"; Input.mk "bb" 3 "01" "W4"] 80));
    reflexivity.
Defined.

(* ================================================================== *)
(** ** Creating a token                                                *)
(* ================================================================== *)

Section CreateTokenFacts.

Context {W D Hist Net : Type}.
Context {constants : Constants} {txlib : TransactionLib Net} {walletlib : WalletLib W D Hist}.

(** The two transactions of [createToken]: the creation, and the mint that
    follows the response of the creation. *)
Let creation (input : Input.t) (output : Output.t) (address : string) : TxData.t :=
  TxData.mk [input]
    [Output.mk address (Z.lor (Z.lor TOKEN_CREATION_MASK TOKEN_MINT_MASK) TOKEN_MELT_MASK)
       AUTHORITY_TOKEN_DATA;
     output]
    [UidBuffer (getTokenUID (Input.tx_id input) (Input.index input))].

Let mint (response : Response.t) (address : string) (mintAmount : Z) : TxData.t :=
  TxData.mk
    [Input.mk (Response.tx_hash response) 0 (Response.tx_tokens_0 response) address]
    [Output.mk address mintAmount 1;
     Output.mk address TOKEN_MINT_MASK AUTHORITY_TOKEN_DATA;
     Output.mk address TOKEN_MELT_MASK AUTHORITY_TOKEN_DATA]
    [UidString (Response.tx_tokens_0 response)].

(** The registered tokens, as [getTokens] reads them. *)
Let registered (st : Storage) : list TokenConfig.t :=
  match st "wallet:tokens"%string with
  | Some tokens => tokens
  | None => [HATHOR_TOKEN_CONFIG]
  end.

(** C6.  When the submission of the creation is rejected, [createToken]
    rejects with the message of that error, having made that one submission
    and no other (no mint), and having stored nothing.  When the creation
    resolves and the submission of the mint is rejected, [createToken] rejects
    with the reason of the mint, after the two submissions, and the new token
    stands registered in the storage. *)
Theorem createToken_two_phases (input : Input.t) (output : Output.t)
    (address name symbol : string) (mintAmount : Z) (pin : string) (env : Env W Net) :
  (forall e n,
      sendTransaction (creation input output address) pin (net env) = (Rejected e, n) ->
      createToken input output address name symbol mintAmount pin env
      = (Rejected (RejectedMessage (Error.message e)),
         mkEnv (wallet env) n (storage env)
               (submitted env ++ [(creation input output address, pin)])))
  /\ (forall response n e n',
        sendTransaction (creation input output address) pin (net env)
        = (Resolved response, n) ->
        sendTransaction (mint response address mintAmount) pin n = (Rejected e, n') ->
        exists env',
          createToken input output address name symbol mintAmount pin env
          = (Rejected (RejectedReason e), env')
          /\ submitted env'
             = submitted env ++ [(creation input output address, pin);
                                 (mint response address mintAmount, pin)]
          /\ storage env' "wallet:tokens"%string
             = Some (registered (storage env)
                     ++ [TokenConfig.mk name symbol (Response.tx_tokens_0 response)])).
Proof.
  split.
  - intros e n Hcreate.
    unfold createToken, bind, ret, transaction_sendTransaction.
    fold (creation input output address). now rewrite Hcreate.
  - intros response n e n' Hcreate Hmint.
    unfold createToken, bind, ret, transaction_sendTransaction at 1.
    fold (creation input output address). rewrite Hcreate.
    unfold addToken, getTokens, saveToStorage, getItem, setItem, bind, ret, mintTokens,
      transaction_sendTransaction, storage_getItem, storage_setItem.
    cbn [wallet net storage submitted app].
    fold (mint response address mintAmount).
    destruct (storage env "wallet:tokens"%string) as [tokens|] eqn:Hst;
      cbn [wallet net storage submitted]; rewrite Hmint;
      eexists; (split; [reflexivity|]); cbn [wallet net storage submitted];
      unfold registered; rewrite Hst, <- app_assoc; split; reflexivity.
Qed.

End CreateTokenFacts.

Lemma createToken_two_phases_witness :
  createToken (constants := sample_constants) (txlib := one_shot_transaction_lib)
    (Input.mk "ab" 0 "00" "W0") (Output.mk "W1" 99 0) "W2" "My:Coin" "MYC" 500 "1234"
    (mkEnv sample_history true (fun _ => None) [])
  = (Rejected (RejectedMessage "rejected"),
     mkEnv sample_history true (fun _ => None)
       [(TxData.mk [Input.mk "ab" 0 "00" "W0"]
           [Output.mk "W2" 7 129; Output.mk "W1" 99 0]
           [UidBuffer ["a"%byte; "b"%byte; x00]], "1234"%string)])
  /\ exists env' : Env (list Tx.t) bool,
       createToken (constants := sample_constants) (txlib := one_shot_transaction_lib)
         (Input.mk "ab" 0 "00" "W0") (Output.mk "W1" 99 0) "W2" "My:Coin" "MYC" 500 "1234"
         (mkEnv sample_history false (fun _ => None) [])
       = (Rejected (RejectedReason (Error.mk "rejected")), env')
       /\ List.length (submitted env') = 2
       /\ storage env' "wallet:tokens"%string
          = Some [TokenConfig.mk "Hathor" "HTR" "00"; TokenConfig.mk "My:Coin" "MYC" "00bb"].
Proof.
  split.
  - apply (proj1 (createToken_two_phases (constants := sample_constants)
                    (txlib := one_shot_transaction_lib)
                    (Input.mk "ab" 0 "00" "W0") (Output.mk "W1" 99 0) "W2" "My:Coin" "MYC"
                    500 "1234" (mkEnv sample_history true (fun _ => None) []))
                 (Error.mk "rejected") true eq_refl).
  - destruct (proj2 (createToken_two_phases (constants := sample_constants)
                       (txlib := one_shot_transaction_lib)
                       (Input.mk "ab" 0 "00" "W0") (Output.mk "W1" 99 0) "W2" "My:Coin"
                       "MYC" 500 "1234" (mkEnv sample_history false (fun _ => None) []))
                    (Response.mk "00aa" "00bb") true (Error.mk "rejected") true
                    eq_refl eq_refl) as (env' & Hrun & Hsub & Hst).
    exists env'. split; [exact Hrun|]. split; [now rewrite Hsub|exact Hst].
Defined.

(* ================================================================== *)
(** ** The mining submission machine                                   *)
(* ================================================================== *)

Section MiningFacts.

Context {T : Type} (toHex : T -> string).
Context {constants : Constants}.

Lemma run_stuck (service : Service) (fuel : nat) (r : Run (T := T)) :
  run_step toHex service r = None -> run toHex service fuel r = r.
Proof. intros E. destruct fuel; simpl; [reflexivity|now rewrite E]. Qed.

Lemma run_add (service : Service) (a b : nat) :
  forall r : Run (T := T),
    run toHex service (a + b) r = run toHex service b (run toHex service a r).
Proof.
  induction a as [|a IH]; intros r; [reflexivity|].
  cbn [Nat.add run]. destruct (run_step toHex service r) as [r'|] eqn:E.
  - apply IH.
  - symmetry. now apply run_stuck.
Qed.

Lemma run_terminal (service : Service) (fuel : nat) (r : Run (T := T)) :
  phase (object r) = Failed \/ phase (object r) = Done ->
  run toHex service fuel r = r.
Proof.
  intros Hp. apply run_stuck. unfold run_step, next_stimulus.
  now destruct Hp as [-> | ->].
Qed.

Lemma submissions_snoc (l : list (Stimulus * list Action)) (s : Stimulus) (done : list Action) :
  submissions (l ++ [(s, done)]) = submissions l + List.length (filter is_submission done).
Proof.
  unfold submissions, actions_of. rewrite map_app, concat_app, filter_app, length_app.
  simpl. now rewrite app_nil_r.
Qed.

Lemma polls_snoc (l : list (Stimulus * list Action)) (s : Stimulus) (done : list Action) :
  polls (l ++ [(s, done)]) = polls l + List.length (filter is_poll done).
Proof.
  unfold polls, actions_of. rewrite map_app, concat_app, filter_app, length_app.
  simpl. now rewrite app_nil_r.
Qed.

Lemma resubmissions_snoc (l : list (Stimulus * list Action)) (s : Stimulus)
    (done : list Action) :
  resubmissions (l ++ [(s, done)])
  = resubmissions l
    + if is_status_response s then List.length (filter is_submission done) else 0.
Proof.
  unfold resubmissions, actions_of. rewrite filter_app. cbn [filter fst].
  destruct (is_status_response s).
  - rewrite map_app, concat_app, filter_app, length_app. simpl. now rewrite app_nil_r.
  - rewrite app_nil_r. lia.
Qed.

(** C8.  When the answer to the first submission carries the time -1, the run
    asks for no job status, however long it is followed, and after the two
    stimuli of [start()] and of that answer it stands in [Failed], its promise
    rejected with the no-miners error, the only event being that
    [send-error]. *)
Theorem no_miners_on_first_submission (service : Service) (fuel : nat) (transaction : T)
    (options : option Z) (response : SubmitResponse.t) :
  submit_reply service 0 = Answer response ->
  (SubmitResponse.expected_total_time response == -1)%Q ->
  polls (log (send toHex service fuel transaction options)) = 0
  /\ (2 <= fuel ->
      send toHex service fuel transaction options
      = mkRun (mkSendTransaction transaction None None 1
                 (match options with Some m => m | None => 3%Z end)
                 (Rejected noMinersError) Failed)
              1 0
              [(Start, [CallSubmitJob (toHex transaction)]);
               (SubmitJobResponse response, [Emit (send_error noMinersError)])]).
Proof.
  intros Hreply Hnone. apply Qeq_eq_bool in Hnone.
  assert (Htwo : forall f, send toHex service (S (S f)) transaction options
                 = mkRun (mkSendTransaction transaction None None 1
                            (match options with Some m => m | None => 3%Z end)
                            (Rejected noMinersError) Failed)
                         1 0
                         [(Start, [CallSubmitJob (toHex transaction)]);
                          (SubmitJobResponse response, [Emit (send_error noMinersError)])]).
  { intros f. unfold send. cbn [run]. unfold run_step at 1. cbn -[Qeq_bool].
    rewrite Hreply. cbn -[Qeq_bool]. unfold submitJob_response. rewrite Hnone.
    cbn. now apply run_terminal; left. }
  split.
  - destruct fuel as [|[|f]]; [reflexivity|reflexivity|]. now rewrite Htwo.
  - intros Hfuel. destruct fuel as [|[|f]]; [lia|lia|]. apply Htwo.
Qed.

(** C7, as amended.  While the answer of [getJobStatus] is awaited, an answer
    whose status is neither [done] nor [timeout] and whose time is not -1
    stores that time as the estimation, emits [estimation-updated] with it,
    and sets the timer of the next poll, the machine staying in [Polling]
    with its promise as it was; when that timer fires, the job status is
    asked for again. *)
Theorem other_status_keeps_polling (this : SendTransaction T) (response : StatusResponse.t) :
  phase this = Polling StatusPending ->
  StatusResponse.status response <> "done"%string ->
  StatusResponse.status response <> "timeout"%string ->
  ~ (StatusResponse.expected_total_time response == -1)%Q ->
  let e := StatusResponse.expected_total_time response in
  let this' :=
    mkSendTransaction (transaction this) (Some e) (jobID this) (countTxMiningAttempts this)
      (maxTxMiningRetries this) (promise this) (Polling TimerPending) in
  react toHex (JobStatusResponse response) this
  = Some (this', [Emit (estimation_updated (jobID this) e);
                  SetTimeout (Qmax (e / 2) MIN_POLLING_INTERVAL * 1000)%Q])
  /\ react toHex TimerFired this'
     = Some (mkSendTransaction (transaction this) (Some e) (jobID this)
               (countTxMiningAttempts this) (maxTxMiningRetries this) (promise this)
               (Polling StatusPending),
             [CallGetJobStatus (jobID this)]).
Proof.
  intros Hphase Hdone Htimeout Htime e this'.
  split; [|reflexivity].
  unfold react. rewrite Hphase. unfold getJobStatus_response.
  apply String.eqb_neq in Hdone, Htimeout. rewrite Hdone, Htimeout.
  destruct (Qeq_bool (StatusResponse.expected_total_time response) (-1)) eqn:E.
  - apply Qeq_bool_eq in E. contradiction.
  - reflexivity.
Qed.

Section Timeouts.

Variable service : Service.
Variable max : Z.
Hypothesis Haccepts : always_accepts service.
Hypothesis Htimeouts : always_times_out service.

(** The run stands at its [c]-th submission, still unanswered. *)
Let at_submission (r : Run (T := T)) (c : nat) : Prop :=
  phase (object r) = Submitting
  /\ promise (object r) = Pending
  /\ countTxMiningAttempts (object r) = Z.of_nat c
  /\ maxTxMiningRetries (object r) = max
  /\ submissions (log r) = c
  /\ polls (log r) = c - 1
  /\ resubmissions (log r) = c - 1.

(** The run has failed on the timeout of its [c]-th submission. *)
Let failed_by_timeout (r : Run (T := T)) (c : nat) : Prop :=
  phase (object r) = Failed
  /\ promise (object r) = Rejected timeoutError
  /\ countTxMiningAttempts (object r) = Z.of_nat c
  /\ submissions (log r) = c
  /\ polls (log r) = c
  /\ resubmissions (log r) = c - 1
  /\ exists earlier response,
       log r = earlier ++ [(JobStatusResponse response, [Emit (send_error timeoutError)])].

(** One round: the answer to the submission, the timer, the timeout. *)
Lemma timeout_round (r : Run (T := T)) (c : nat) :
  1 <= c -> at_submission r c ->
  ((Z.of_nat c < max)%Z -> at_submission (run toHex service 3 r) (S c))
  /\ ((max <= Z.of_nat c)%Z -> failed_by_timeout (run toHex service 3 r) c).
Proof.
  intros Hc (Hph & Hpr & Hcnt & Hmax & Hsub & Hpoll & Hre).
  destruct r as [[tr est jid cnt mx pr ph] ns np lg].
  cbn [object log phase promise countTxMiningAttempts maxTxMiningRetries] in *.
  subst ph pr cnt mx.
  destruct (Haccepts ns) as (resp & Hr & Hok).
  destruct (Htimeouts np) as (st & Hs & Hst).
  remember (run toHex service 3
              (mkRun (mkSendTransaction tr est jid (Z.of_nat c) max Pending Submitting)
                 ns np lg)) as r3 eqn:E3.
  cbn [run] in E3. unfold run_step at 1 in E3.
  cbn [next_stimulus object phase answered_submissions answered_polls log] in E3.
  rewrite Hr in E3.
  cbn [react phase] in E3. unfold submitJob_response in E3. rewrite Hok in E3.
  cbn -[Qmax Qmult Qdiv Qeq_bool Z.ltb Z.add] in E3.
  rewrite Hs in E3.
  cbn -[Qmax Qmult Qdiv Qeq_bool Z.ltb Z.add] in E3.
  unfold getJobStatus_response in E3. rewrite Hst in E3.
  cbn -[Qmax Qmult Qdiv Qeq_bool Z.ltb Z.add] in E3.
  destruct (Z.ltb_spec (Z.of_nat c) max) as [Hlt|Hge];
    cbn -[Qmax Qmult Qdiv Z.add] in E3; subst r3;
    (split; [intros Hlt'|intros Hge']; try lia).
  - unfold at_submission. cbn [object log phase promise countTxMiningAttempts
                                 maxTxMiningRetries].
    rewrite !submissions_snoc, !polls_snoc, !resubmissions_snoc. cbn.
    repeat split; lia.
  - unfold failed_by_timeout. cbn [object log phase promise countTxMiningAttempts
                                     maxTxMiningRetries].
    rewrite !submissions_snoc, !polls_snoc, !resubmissions_snoc. cbn.
    repeat split; try lia. eexists _, st. reflexivity.
Qed.

Lemma timeout_rounds (k : nat) :
  forall (r : Run (T := T)) (c : nat),
    1 <= c -> (Z.of_nat c <= max)%Z -> k = Z.to_nat max - c -> at_submission r c ->
    forall fuel, 3 * (k + 1) <= fuel ->
      failed_by_timeout (run toHex service fuel r) (Z.to_nat max).
Proof.
  induction k as [|k IH]; intros r c Hc Hle Hk Hat fuel Hfuel.
  - replace fuel with (3 + (fuel - 3)) by lia. rewrite run_add.
    assert (Hend : c = Z.to_nat max) by lia. subst c.
    destruct (timeout_round r _ Hc Hat) as [_ Hfail].
    specialize (Hfail ltac:(lia)).
    rewrite run_terminal; [exact Hfail|]. left. apply Hfail.
  - replace fuel with (3 + (fuel - 3)) by lia. rewrite run_add.
    destruct (timeout_round r c Hc Hat) as [Hnext _].
    specialize (Hnext ltac:(lia)).
    apply (IH _ (S c)); trivial; lia.
Qed.

(** C2, as amended.  On a status [timeout] the machine submits the job anew
    while its count of attempts is below [maxTxMiningRetries], and otherwise
    fails with the timeout error.  Against a service that accepts every
    submission and answers every status request with [timeout], with
    [maxTxMiningRetries] at least 1, the run ends in [Failed] with its promise
    rejected with the timeout error, after [maxTxMiningRetries] submissions in
    all (the first one and [maxTxMiningRetries - 1] resubmissions), each
    polled once, the last stimulus being the timeout that makes it emit that
    [send-error]. *)
Theorem timeouts_exhaust_the_attempts (tx : T) :
  (1 <= max)%Z ->
  (forall (this : SendTransaction T) (response : StatusResponse.t),
      phase this = Polling StatusPending ->
      StatusResponse.status response = "timeout"%string ->
      react toHex (JobStatusResponse response) this
      = Some (if (countTxMiningAttempts this <? maxTxMiningRetries this)%Z
              then submitJob toHex this
              else (mkSendTransaction (transaction this) (estimation this)
                      (jobID this) (countTxMiningAttempts this) (maxTxMiningRetries this)
                      (settle (promise this) (Rejected timeoutError)) Failed,
                    [Emit (send_error timeoutError)])))
  /\ (forall fuel,
        3 * Z.to_nat max + 1 <= fuel ->
        let r := send toHex service fuel tx (Some max) in
        phase (object r) = Failed
        /\ promise (object r) = Rejected timeoutError
        /\ countTxMiningAttempts (object r) = max
        /\ submissions (log r) = Z.to_nat max
        /\ polls (log r) = Z.to_nat max
        /\ resubmissions (log r) = Z.to_nat max - 1
        /\ exists earlier response,
             log r = earlier
                     ++ [(JobStatusResponse response, [Emit (send_error timeoutError)])]).
Proof.
  intros Hmax. split.
  - intros this response Hphase Hstatus.
    unfold react. rewrite Hphase. unfold getJobStatus_response. rewrite Hstatus.
    cbn [String.eqb Ascii.eqb Bool.eqb].
    now destruct (countTxMiningAttempts this <? maxTxMiningRetries this)%Z.
  - intros fuel Hfuel r. subst r. unfold send.
    replace fuel with (1 + (fuel - 1)) by lia. rewrite run_add.
    cbn [run]. unfold run_step at 1. cbn -[Z.add].
    assert (Hat : at_submission
                    (mkRun (mkSendTransaction tx None None (0 + 1)%Z max Pending
                              Submitting) 0 0 [(Start, [CallSubmitJob (toHex tx)])])
                    1).
    { unfold at_submission. cbn. repeat split. }
    pose proof (timeout_rounds (Z.to_nat max - 1) _ 1 ltac:(lia) ltac:(lia) eq_refl Hat
                  (fuel - 1) ltac:(lia)) as Hfail.
    destruct Hfail as (Hph & Hpr & Hcnt & Hsub & Hpoll & Hre & Hlast).
    repeat split; trivial. rewrite Hcnt. lia.
Qed.

End Timeouts.

End MiningFacts.


Section MiningExamples.
Local Open Scope string_scope.

Lemma timing_out_service_accepts : always_accepts timing_out_service.
Proof. intros n. eexists. split; reflexivity. Defined.

Lemma timing_out_service_times_out : always_times_out timing_out_service.
Proof. intros n. eexists. split; reflexivity. Defined.

Lemma timeouts_exhaust_the_attempts_witness :
  submissions (log (send (constants := sample_constants) (fun t : string => t)
                      timing_out_service 10 "abcd" (Some 3%Z)))
  = 3.
Proof.
  apply (proj2 (timeouts_exhaust_the_attempts (constants := sample_constants)
                  (fun t : string => t) timing_out_service 3
                  timing_out_service_accepts timing_out_service_times_out "abcd"
                  ltac:(lia))
               10 ltac:(simpl; lia)).
Defined.

(** C2, as the claim states it, fails: with [maxTxMiningRetries] at 3 and
    every poll answered [timeout], the run ends in [Failed] after 3
    submissions, of which 2 are resubmissions, not 3. *)
Lemma three_timeouts_resubmit_twice :
  phase (object (send (constants := sample_constants) (fun t : string => t)
                   timing_out_service 10 "abcd" (Some 3%Z))) = Failed
  /\ submissions (log (send (constants := sample_constants) (fun t : string => t)
                         timing_out_service 10 "abcd" (Some 3%Z))) = 3
  /\ resubmissions (log (send (constants := sample_constants) (fun t : string => t)
                           timing_out_service 10 "abcd" (Some 3%Z))) = 2
  /\ resubmissions (log (send (constants := sample_constants) (fun t : string => t)
                           timing_out_service 10 "abcd" (Some 3%Z)))
     <> Z.to_nat (maxTxMiningRetries
                    (object (send (constants := sample_constants) (fun t : string => t)
                               timing_out_service 10 "abcd" (Some 3%Z)))).
Proof. repeat split. vm_compute. discriminate. Qed.

Lemma other_status_keeps_polling_witness :
  react (constants := sample_constants) (fun t : string => t)
    (JobStatusResponse (StatusResponse.mk "mining" (MinedTx.mk "" [] 0 0) 4))
    (mkSendTransaction "abcd" (Some 10%Q) (Some "job") 1 3 Pending (Polling StatusPending))
  = Some (mkSendTransaction "abcd" (Some 4%Q) (Some "job") 1 3 Pending (Polling TimerPending),
          [Emit (estimation_updated (Some "job") 4);
           SetTimeout (Qmax (4 / 2) (1 # 2) * 1000)%Q]).
Proof.
  apply (other_status_keeps_polling (constants := sample_constants) (fun t : string => t)
           (mkSendTransaction "abcd" (Some 10%Q) (Some "job") 1 3 Pending
              (Polling StatusPending))
           (StatusResponse.mk "mining" (MinedTx.mk "" [] 0 0) 4)).
  - reflexivity.
  - discriminate.
  - discriminate.
  - intros E. discriminate E.
Defined.

(** C7, as the claim states it, fails: a status that is neither [done] nor
    [timeout] but carries the time -1 ends the run in [Failed] with the
    no-miners error; the estimation is not updated, no [estimation-updated]
    is emitted and no timer is set. *)
Lemma status_without_miners_stops_polling :
  react (constants := sample_constants) (fun t : string => t)
    (JobStatusResponse (StatusResponse.mk "mining" (MinedTx.mk "" [] 0 0) (-1)))
    (mkSendTransaction "abcd" (Some 10%Q) (Some "job") 1 3 Pending (Polling StatusPending))
  = Some (mkSendTransaction "abcd" (Some 10%Q) (Some "job") 1 3 (Rejected noMinersError)
            Failed,
          [Emit (send_error noMinersError)]).
Proof. reflexivity. Qed.

Lemma no_miners_on_first_submission_witness :
  polls (log (send (constants := sample_constants) (fun t : string => t)
                no_miner_service 10 "abcd" None)) = 0.
Proof.
  apply (no_miners_on_first_submission (constants := sample_constants)
           (fun t : string => t) no_miner_service 10 "abcd" None
           (SubmitResponse.mk (-1) "job")); reflexivity.
Defined.

End MiningExamples.

(* ================================================================== *)
(** ** The token registry                                              *)
(* ================================================================== *)

Section RegistryFacts.

Context {W Net : Type} {constants : Constants}.

Local Abbreviation same_uid uid := (fun token => String.eqb (TokenConfig.uid token) uid).
Local Abbreviation other_uid uid :=
  (fun token => negb (String.eqb (TokenConfig.uid token) uid)).

Lemma find_app {A : Type} (p : A -> bool) (l l' : list A) :
  find p (l ++ l') = match find p l with Some x => Some x | None => find p l' end.
Proof. induction l as [|a l IH]; simpl; [reflexivity|]. now destruct (p a). Qed.

Lemma find_filter_none {A : Type} (p q : A -> bool) (l : list A) :
  (forall x, p x = true -> q x = false) -> find p (filter q l) = None.
Proof.
  intros Hpq. induction l as [|a l IH]; simpl; [reflexivity|].
  destruct (q a) eqn:Hq; [|exact IH]. simpl.
  destruct (p a) eqn:Hp; [|exact IH]. rewrite (Hpq a Hp) in Hq. discriminate.
Qed.

Lemma find_filter_same {A : Type} (p q : A -> bool) (l : list A) :
  (forall x, p x = true -> q x = true) -> find p (filter q l) = find p l.
Proof.
  intros Hpq. induction l as [|a l IH]; simpl; [reflexivity|].
  destruct (p a) eqn:Hp.
  - rewrite (Hpq a Hp). simpl. now rewrite Hp.
  - destruct (q a); simpl; [rewrite Hp|]; exact IH.
Qed.

Lemma getTokens_keeps (env : Env W Net) : snd (getTokens env) = env.
Proof. unfold getTokens, bind, getItem, ret. now destruct (storage_getItem _ _). Qed.

Lemma getTokens_after_save (tokens : list TokenConfig.t) (env : Env W Net) :
  fst (getTokens (snd (saveToStorage tokens env))) = tokens.
Proof. reflexivity. Qed.

Lemma tokenExists_run (uid : string) (env : Env W Net) :
  tokenExists uid env = (find (same_uid uid) (fst (getTokens env)), env).
Proof.
  unfold tokenExists, bind, ret.
  pose proof (getTokens_keeps env) as Hk. destruct (getTokens env) as [tokens env'].
  simpl in *. now subst.
Qed.

Lemma addToken_run (uid name symbol : string) (env : Env W Net) :
  addToken uid name symbol env
  = (fst (getTokens env) ++ [TokenConfig.mk name symbol uid],
     snd (saveToStorage (fst (getTokens env) ++ [TokenConfig.mk name symbol uid]) env)).
Proof.
  unfold addToken, bind, ret.
  pose proof (getTokens_keeps env) as Hk. destruct (getTokens env) as [tokens env'].
  simpl in *. subst. reflexivity.
Qed.

Lemma editToken_run (uid name symbol : string) (env : Env W Net) :
  editToken uid name symbol env
  = (filter (other_uid uid) (fst (getTokens env)) ++ [TokenConfig.mk name symbol uid],
     snd (saveToStorage
            (filter (other_uid uid) (fst (getTokens env)) ++ [TokenConfig.mk name symbol uid])
            env)).
Proof.
  unfold editToken, bind, ret.
  pose proof (getTokens_keeps env) as Hk. destruct (getTokens env) as [tokens env'].
  simpl in *. subst. reflexivity.
Qed.

Lemma unregisterToken_run (uid : string) (env : Env W Net) :
  unregisterToken uid env
  = (filter (other_uid uid) (fst (getTokens env)),
     snd (saveToStorage (filter (other_uid uid) (fst (getTokens env))) env)).
Proof.
  unfold unregisterToken, bind, ret.
  pose proof (getTokens_keeps env) as Hk. destruct (getTokens env) as [tokens env'].
  simpl in *. subst. reflexivity.
Qed.

Lemma other_uid_of_same (uid uid' : string) (x : TokenConfig.t) :
  uid' <> uid -> same_uid uid' x = true -> other_uid uid x = true.
Proof.
  intros Hne Hx. apply String.eqb_eq in Hx. apply negb_true_iff, String.eqb_neq.
  now rewrite Hx.
Qed.

(** X1.  After [addToken(uid, name, symbol)] the registry is the former one
    with the new configuration appended; [tokenExists(uid)] finds the
    configuration that was registered first under [uid], the new one only
    when there was none (nothing is replaced), and looking up any other uid
    gives what it gave before. *)
Theorem addToken_then_tokenExists (uid name symbol : string) (env : Env W Net) :
  fst (getTokens (snd (addToken uid name symbol env)))
  = fst (getTokens env) ++ [TokenConfig.mk name symbol uid]
  /\ fst (tokenExists uid (snd (addToken uid name symbol env)))
     = match fst (tokenExists uid env) with
       | Some old => Some old
       | None => Some (TokenConfig.mk name symbol uid)
       end
  /\ (forall uid', uid' <> uid ->
        fst (tokenExists uid' (snd (addToken uid name symbol env)))
        = fst (tokenExists uid' env)).
Proof.
  rewrite addToken_run. cbn [snd]. rewrite !tokenExists_run. cbn [fst].
  rewrite getTokens_after_save. split; [reflexivity|]. split.
  - rewrite find_app. destruct (find _ (fst (getTokens env))); [reflexivity|].
    simpl. now rewrite String.eqb_refl.
  - intros uid' Hne. rewrite !tokenExists_run. cbn [fst].
    rewrite getTokens_after_save, find_app.
    destruct (find _ (fst (getTokens env))); [reflexivity|]. simpl.
    apply not_eq_sym in Hne. apply String.eqb_neq in Hne. now rewrite Hne.
Qed.

(** X2.  After [unregisterToken(uid)], [tokenExists(uid)] is [null], every
    other uid is looked up as before, and the registry read back is the
    former one without the tokens of that uid, in the same order. *)
Theorem unregisterToken_then_tokenExists (uid : string) (env : Env W Net) :
  fst (tokenExists uid (snd (unregisterToken uid env))) = None
  /\ (forall uid', uid' <> uid ->
        fst (tokenExists uid' (snd (unregisterToken uid env)))
        = fst (tokenExists uid' env))
  /\ fst (getTokens (snd (unregisterToken uid env)))
     = filter (other_uid uid) (fst (getTokens env)).
Proof.
  rewrite unregisterToken_run. cbn [snd]. split; [|split].
  - rewrite tokenExists_run. cbn [fst]. rewrite getTokens_after_save.
    apply find_filter_none. intros x Hx. now rewrite Hx.
  - intros uid' Hne. rewrite !tokenExists_run. cbn [fst].
    rewrite getTokens_after_save. apply find_filter_same.
    intros x. now apply other_uid_of_same.
  - apply getTokens_after_save.
Qed.

(** X3.  The default registry is not restored once something was saved:
    with nothing stored, unregistering the native token leaves a registry
    that reads back empty, and the native token is no longer found. *)
Theorem unregister_native_empties_registry (env : Env W Net) :
  storage env "wallet:tokens"%string = None ->
  fst (getTokens env) = [HATHOR_TOKEN_CONFIG]
  /\ fst (getTokens (snd (unregisterToken (TokenConfig.uid HATHOR_TOKEN_CONFIG) env))) = []
  /\ fst (tokenExists (TokenConfig.uid HATHOR_TOKEN_CONFIG)
            (snd (unregisterToken (TokenConfig.uid HATHOR_TOKEN_CONFIG) env))) = None.
Proof.
  intros Hnone.
  assert (Hdefault : fst (getTokens env) = [HATHOR_TOKEN_CONFIG]).
  { unfold getTokens, bind, getItem, ret, storage_getItem. now rewrite Hnone. }
  split; [exact Hdefault|].
  rewrite unregisterToken_run. cbn [snd]. rewrite tokenExists_run. cbn [fst].
  rewrite getTokens_after_save, Hdefault. simpl. now rewrite String.eqb_refl.
Qed.

(** X4.  After [editToken(uid, name, symbol)] exactly one token of the
    registry has the uid, the edited one, which [tokenExists(uid)] finds,
    whether or not the uid was registered before; every other uid is looked up
    as before; and the edited token stands last in the registry. *)
Theorem editToken_then_tokenExists (uid name symbol : string) (env : Env W Net) :
  fst (tokenExists uid (snd (editToken uid name symbol env)))
  = Some (TokenConfig.mk name symbol uid)
  /\ filter (same_uid uid) (fst (getTokens (snd (editToken uid name symbol env))))
     = [TokenConfig.mk name symbol uid]
  /\ (forall uid', uid' <> uid ->
        fst (tokenExists uid' (snd (editToken uid name symbol env)))
        = fst (tokenExists uid' env))
  /\ fst (getTokens (snd (editToken uid name symbol env)))
     = filter (other_uid uid) (fst (getTokens env)) ++ [TokenConfig.mk name symbol uid].
Proof.
  rewrite editToken_run. cbn [snd]. rewrite tokenExists_run. cbn [fst].
  rewrite getTokens_after_save.
  assert (Hnone : forall l, filter (same_uid uid) (filter (other_uid uid) l) = []).
  { induction l as [|a l IH]; simpl; [reflexivity|].
    destruct (String.eqb (TokenConfig.uid a) uid) eqn:E; simpl; [exact IH|].
    now rewrite E. }
  split; [|split; [|split]].
  - rewrite find_app, find_filter_none; [|intros x Hx; now rewrite Hx].
    simpl. now rewrite String.eqb_refl.
  - rewrite filter_app, Hnone. simpl. now rewrite String.eqb_refl.
  - intros uid' Hne. rewrite !tokenExists_run. cbn [fst].
    rewrite getTokens_after_save, find_app.
    rewrite find_filter_same by (intros x; now apply other_uid_of_same).
    destruct (find _ (fst (getTokens env))); [reflexivity|]. simpl.
    apply not_eq_sym in Hne. apply String.eqb_neq in Hne. now rewrite Hne.
  - reflexivity.
Qed.

(** X5.  Editing a token that is not the native one moves it to the last
    index: after [editToken], [getTokenIndex] of the registry gives the uid
    the number of tokens of the registry that are not the native one. *)
Theorem editToken_moves_to_last_index (uid name symbol : string) (env : Env W Net) :
  uid <> TokenConfig.uid HATHOR_TOKEN_CONFIG ->
  getTokenIndex (fst (getTokens (snd (editToken uid name symbol env)))) uid
  = Z.of_nat (List.length
                (non_native (fst (getTokens (snd (editToken uid name symbol env)))))).
Proof.
  intros Hnative. rewrite editToken_run. cbn [snd]. rewrite getTokens_after_save.
  unfold getTokenIndex, findIndex, filterTokens, non_native.
  destruct (String.eqb uid (TokenConfig.uid HATHOR_TOKEN_CONFIG)) eqn:E;
    [apply String.eqb_eq in E; contradiction|].
  rewrite filter_app. cbn [filter TokenConfig.uid].
  rewrite E. cbn [negb].
  rewrite findIndex_from_first.
  - rewrite length_app. simpl. lia.
  - intros y Hy. apply filter_In in Hy. destruct Hy as [Hy _].
    apply filter_In in Hy. destruct Hy as [_ Hy]. now apply negb_true_iff in Hy.
  - apply String.eqb_refl.
Qed.

End RegistryFacts.

(* ================================================================== *)
(** ** Validating a token before it is added                           *)
(* ================================================================== *)

Section ValidationFacts.

Context {W Net : Type} {constants : Constants} {txlib : TransactionLib Net}.

Lemma find_none_iff {A : Type} (p : A -> bool) (l : list A) :
  find p l = None <-> forall x, In x l -> p x = false.
Proof.
  split; [apply find_none|].
  induction l as [|a l IH]; intros Hall; simpl; [reflexivity|].
  rewrite (Hall a) by now left. apply IH. intros x Hx. apply Hall. now right.
Qed.

Lemma validateTokenToAddByUid_run (uid : string) (env : Env W Net) :
  validateTokenToAddByUid uid env
  = (match find (fun token => String.eqb (TokenConfig.uid token) uid) (fst (getTokens env)) with
     | Some existedToken =>
         Validation.mk false
           (Some ("You already have this token: " ++ uid ++ " ("
                  ++ TokenConfig.name existedToken ++ ")")%string)
           None
     | None => Validation.mk true None None
     end, env).
Proof.
  unfold validateTokenToAddByUid, bind. rewrite tokenExists_run.
  now destruct (find _ (fst (getTokens env))).
Qed.

Lemma validateTokenToAddByUid_succeeds_iff (uid : string) (env : Env W Net) :
  Validation.success (fst (validateTokenToAddByUid uid env)) = true
  <-> forall token, In token (fst (getTokens env)) -> TokenConfig.uid token <> uid.
Proof.
  rewrite validateTokenToAddByUid_run. cbn [fst].
  destruct (find _ (fst (getTokens env))) as [t|] eqn:Hfind; cbn [Validation.success].
  - split; [discriminate|]. intros Hall.
    apply find_some in Hfind. destruct Hfind as [Hin Hu].
    apply String.eqb_eq in Hu. now destruct (Hall t Hin).
  - split; [|reflexivity]. intros _ token Hin.
    apply String.eqb_neq. exact (proj1 (find_none_iff _ _) Hfind token Hin).
Qed.


(** X7.  [validateTokenToAddByConfigurationString] changes nothing, and
    succeeds exactly when the string parses to a token, the uid given with it
    (if one is given, and is not the empty string) is the uid of that token,
    and no token of the registry has that uid; on success the token data it
    returns is the parsed token. *)
Theorem validateTokenToAddByConfigurationString_spec (config : string) (given : option string)
    (env : Env W Net) :
  snd (validateTokenToAddByConfigurationString config given env) = env
  /\ (Validation.success (fst (validateTokenToAddByConfigurationString config given env)) = true
      <-> exists tokenData,
            getTokenFromConfigurationString config = Some tokenData
            /\ (given = None \/ given = Some ""%string
                \/ given = Some (TokenConfig.uid tokenData))
            /\ (forall token, In token (fst (getTokens env)) ->
                  TokenConfig.uid token <> TokenConfig.uid tokenData))
  /\ (Validation.success (fst (validateTokenToAddByConfigurationString config given env)) = true ->
      Validation.tokenData (fst (validateTokenToAddByConfigurationString config given env))
      = getTokenFromConfigurationString config).
Proof.
  unfold validateTokenToAddByConfigurationString.
  destruct (getTokenFromConfigurationString config) as [t|].
  2:{ cbn. split; [reflexivity|]. split; [|discriminate].
      split; [discriminate|]. intros (t & Ht & _). discriminate. }
  pose proof (validateTokenToAddByUid_succeeds_iff (TokenConfig.uid t) env) as Hiff.
  assert (Hkeep : snd (validateTokenToAddByUid (TokenConfig.uid t) env) = env)
    by now rewrite validateTokenToAddByUid_run.
  assert (Hgiven : (match given with
                    | Some u => negb (String.eqb u "")
                    | None => false
                    end
                    && negb (String.eqb (match given with Some u => u | None => ""%string end)
                               (TokenConfig.uid t))) = false
                   <-> (given = None \/ given = Some ""%string
                        \/ given = Some (TokenConfig.uid t))).
  { destruct given as [u|]; [|cbn; tauto].
    destruct (String.eqb_spec u ""); destruct (String.eqb_spec u (TokenConfig.uid t));
      cbn; subst; split; auto; try discriminate;
      intros [E | [E | E]]; try discriminate; inversion E; congruence. }
  destruct (_ && _) eqn:Etest.
  - cbn. split; [reflexivity|]. split; [|discriminate].
    split; [discriminate|]. intros (t' & Ht & Hg & _). inversion Ht; subst t'.
    apply Hgiven in Hg. discriminate.
  - unfold bind, ret.
    destruct (validateTokenToAddByUid (TokenConfig.uid t) env) as [validation env'] eqn:Hv.
    cbn [fst snd] in Hkeep, Hiff. subst env'.
    destruct (Validation.success validation) eqn:Hs; cbn [fst snd Validation.success
                                                            Validation.tokenData].
    + split; [reflexivity|]. split; [|reflexivity].
      split; [|reflexivity]. intros _. exists t. split; [reflexivity|].
      split; [now apply Hgiven|]. now apply Hiff.
    + split; [reflexivity|]. rewrite Hs. split; [|discriminate].
      split; [discriminate|]. intros (t' & Ht & _ & Hfree). inversion Ht; subst t'.
      apply Hiff in Hfree. discriminate.
Qed.

End ValidationFacts.

(* ================================================================== *)
(** ** The token index, read backwards                                 *)
(* ================================================================== *)

Section TokenIndexRoundTrip.

Context {constants : Constants}.

Lemma findIndex_from_found {A : Type} (p : A -> bool) (arr : list A) :
  forall i : Z,
    (0 <= i)%Z ->
    findIndex_from p arr i = (-1)%Z
    \/ ((i <= findIndex_from p arr i < i + Z.of_nat (List.length arr))%Z
        /\ exists t, nth_error arr (Z.to_nat (findIndex_from p arr i - i)) = Some t
                     /\ p t = true).
Proof.
  induction arr as [|x rest IH]; intros i Hi; [now left|].
  cbn [findIndex_from]. destruct (p x) eqn:Hp.
  - right. split; [cbn [List.length]; lia|]. exists x.
    rewrite Z.sub_diag. now split.
  - destruct (IH (i + 1)%Z ltac:(lia)) as [Hnone | [Hrange (t & Hnth & Ht)]];
      [now left|right].
    split; [cbn [List.length]; lia|]. exists t. split; [|exact Ht].
    replace (Z.to_nat (findIndex_from p rest (i + 1) - i))
      with (S (Z.to_nat (findIndex_from p rest (i + 1) - (i + 1)))) by lia.
    exact Hnth.
Qed.

(** X8.  The index [getTokenIndex] gives lies between 0 and the number of
    non-native tokens; an index other than 0 points, counted from 1 in the
    list without the native token, at a token of the uid asked for; so two
    uids never share an index other than 0. *)
Theorem getTokenIndex_round_trip (tokens : list TokenConfig.t) (uid : string) :
  (0 <= getTokenIndex tokens uid <= Z.of_nat (List.length (non_native tokens)))%Z
  /\ (getTokenIndex tokens uid <> 0%Z ->
      exists token,
        nth_error (non_native tokens) (Z.to_nat (getTokenIndex tokens uid - 1)) = Some token
        /\ TokenConfig.uid token = uid)
  /\ (forall uid',
        getTokenIndex tokens uid <> 0%Z ->
        getTokenIndex tokens uid' = getTokenIndex tokens uid ->
        uid' = uid).
Proof.
  change (non_native tokens) with (filterTokens tokens HATHOR_TOKEN_CONFIG).
  assert (Hpoint : forall u,
             (0 <= getTokenIndex tokens u
              <= Z.of_nat (List.length (filterTokens tokens HATHOR_TOKEN_CONFIG)))%Z
             /\ (getTokenIndex tokens u <> 0%Z ->
                 exists token,
                   nth_error (filterTokens tokens HATHOR_TOKEN_CONFIG)
                             (Z.to_nat (getTokenIndex tokens u - 1)) = Some token
                   /\ TokenConfig.uid token = u)).
  { intros u. unfold getTokenIndex, findIndex.
    destruct (String.eqb u (TokenConfig.uid HATHOR_TOKEN_CONFIG)).
    - split; [lia|]. intros Hz. now destruct Hz.
    - destruct (findIndex_from_found
                  (fun token => String.eqb (TokenConfig.uid token) u)
                  (filterTokens tokens HATHOR_TOKEN_CONFIG) 0%Z ltac:(lia))
        as [Hnone | [Hrange (t & Hnth & Ht)]].
      + rewrite Hnone. split; [lia|]. intros Hz. now destruct Hz.
      + split; [lia|]. intros _. exists t. apply String.eqb_eq in Ht.
        split; [|exact Ht]. rewrite Z.sub_0_r in Hnth.
        now replace (_ + 1 - 1)%Z with
          (findIndex_from (fun token => String.eqb (TokenConfig.uid token) u)
             (filterTokens tokens HATHOR_TOKEN_CONFIG) 0) by lia. }
  split; [apply Hpoint|]. split; [apply Hpoint|].
  intros uid' Hnz Heq.
  destruct (proj2 (Hpoint uid) Hnz) as (t & Hnth & Ht).
  destruct (proj2 (Hpoint uid') ltac:(now rewrite Heq)) as (t' & Hnth' & Ht').
  rewrite Heq, Hnth in Hnth'. inversion Hnth'; subst t'. congruence.
Qed.

End TokenIndexRoundTrip.

(* ================================================================== *)
(** ** More on the selector and on melting                             *)
(* ================================================================== *)

Section SelectorMore.

Context {W D Hist Net : Type}.
Context {constants : Constants} {txlib : TransactionLib Net} {walletlib : WalletLib W D Hist}.

Lemma take_until_extends (amount : Z) (cands : list (Input.t * Z)) (inputs : list Input.t)
    (inputsAmount : Z) (r : MeltInputs.t) :
  take_until amount cands inputs inputsAmount = Some r ->
  (amount <= MeltInputs.inputsAmount r)%Z
  /\ exists more, MeltInputs.inputs r = inputs ++ more.
Proof.
  intros Hr. pose proof (take_until_prefix amount cands inputs inputsAmount) as Hp.
  rewrite Hr in Hp. destruct Hp as (taken & _ & _ & _ & Hin & _ & Hle & _).
  split; [exact Hle|]. now exists (map fst taken).
Qed.

Lemma take_until_monotone (amount amount' : Z) (cands : list (Input.t * Z)) :
  (amount' <= amount)%Z ->
  forall (inputs : list Input.t) (inputsAmount : Z) (r : MeltInputs.t),
    take_until amount cands inputs inputsAmount = Some r ->
    exists r' more,
      take_until amount' cands inputs inputsAmount = Some r'
      /\ MeltInputs.inputs r = MeltInputs.inputs r' ++ more.
Proof.
  intros Hle. induction cands as [|[input value] cands IH]; intros inputs inputsAmount r Hr;
    [discriminate|].
  cbn [take_until] in *.
  destruct (inputsAmount + value >=? amount)%Z eqn:Hreach.
  - inversion Hr; subst r.
    replace (inputsAmount + value >=? amount')%Z with true
      by (symmetry; apply Z.geb_le; apply Z.geb_le in Hreach; lia).
    eexists _, []. split; [reflexivity|]. cbn. now rewrite app_nil_r.
  - destruct (inputsAmount + value >=? amount')%Z.
    + destruct (take_until_extends _ _ _ _ _ Hr) as [_ [more Hmore]].
      eexists _, more. split; [reflexivity|exact Hmore].
    + now apply IH.
Qed.


(** X9.  When [getMeltInputs] finds inputs for an amount, it finds inputs for
    every smaller amount too, and those are the first of the inputs it finds
    for the larger amount. *)
Theorem getMeltInputs_monotone (w : W) (amount amount' : Z) (token : string)
    (r : MeltInputs.t) :
  (amount' <= amount)%Z ->
  getMeltInputs amount token w = Some r ->
  exists r' more,
    getMeltInputs amount' token w = Some r'
    /\ MeltInputs.inputs r = MeltInputs.inputs r' ++ more.
Proof.
  intros Hle. unfold getMeltInputs. destruct (getWalletData w) as [data|]; [|discriminate].
  cbv zeta. rewrite !history_loop. now apply take_until_monotone.
Qed.


(** X11.  [delegateAuthority] makes one submission that spends the given
    input and whose first output gives the authority to [address]: the mint
    mask when [type] is the string [mint], the melt mask for every other
    string.  With [createAnother] a second output keeps the same authority at
    an address the wallet gives; the storage is left alone. *)
Theorem delegateAuthority_mask (txID : string) (index : nat)
    (addressSpent token address : string) (createAnother : bool) (type pin : string)
    (env : Env W Net) :
  exists promise env' mask,
    delegateAuthority txID index addressSpent token address createAnother type pin env
    = (promise, env')
    /\ (type = "mint"%string -> mask = TOKEN_MINT_MASK)
    /\ (type <> "mint"%string -> mask = TOKEN_MELT_MASK)
    /\ submitted env'
       = submitted env
         ++ [(TxData.mk [Input.mk txID index token addressSpent]
                (Output.mk address mask AUTHORITY_TOKEN_DATA
                 :: (if createAnother
                     then [Output.mk (fst (getAddressToUse (wallet env))) mask
                             AUTHORITY_TOKEN_DATA]
                     else []))
                [UidString token], pin)]
    /\ storage env' = storage env
    /\ wallet env' = (if createAnother then snd (getAddressToUse (wallet env))
                      else wallet env).
Proof.
  unfold delegateAuthority, bind, ret, wallet_getAddressToUse, transaction_sendTransaction.
  destruct createAnother.
  - destruct (getAddressToUse (wallet env)) as [newAddress w1]. simpl.
    match goal with
    | |- context [sendTransaction ?data ?p ?n] =>
        destruct (sendTransaction data p n) as [promise n']
    end.
    eexists _, _, (if String.eqb type "mint" then TOKEN_MINT_MASK else TOKEN_MELT_MASK).
    split; [reflexivity|]. cbn.
    destruct (String.eqb_spec type "mint"); repeat split; congruence.
  - simpl.
    match goal with
    | |- context [sendTransaction ?data ?p ?n] =>
        destruct (sendTransaction data p n) as [promise n']
    end.
    eexists _, _, (if String.eqb type "mint" then TOKEN_MINT_MASK else TOKEN_MELT_MASK).
    split; [reflexivity|]. cbn.
    destruct (String.eqb_spec type "mint"); repeat split; congruence.
Qed.

End SelectorMore.

(* ================================================================== *)
(** ** Creating a token, when the creation is not rejected             *)
(* ================================================================== *)

Section CreateTokenMore.

Context {W D Hist Net : Type}.
Context {constants : Constants} {txlib : TransactionLib Net} {walletlib : WalletLib W D Hist}.

Local Abbreviation creation_data input output address :=
  (TxData.mk [input]
     [Output.mk address (Z.lor (Z.lor TOKEN_CREATION_MASK TOKEN_MINT_MASK) TOKEN_MELT_MASK)
        AUTHORITY_TOKEN_DATA;
      output]
     [UidBuffer (getTokenUID (Input.tx_id input) (Input.index input))]).

Local Abbreviation mint_data response address mintAmount :=
  (TxData.mk
     [Input.mk (Response.tx_hash response) 0 (Response.tx_tokens_0 response) address]
     [Output.mk address mintAmount 1;
      Output.mk address TOKEN_MINT_MASK AUTHORITY_TOKEN_DATA;
      Output.mk address TOKEN_MELT_MASK AUTHORITY_TOKEN_DATA]
     [UidString (Response.tx_tokens_0 response)]).

(** X12.  When the creation resolves, [createToken] registers the token under
    the uid the response carries (not under the uid it computed itself),
    submits the mint that spends output 0 of the created transaction, mints
    the amount to [address] and re-creates a mint and a melt authority; its
    promise then follows the mint: resolved with [{uid, name, symbol}] when
    the mint resolves, pending while the mint is pending.  While the creation
    is pending, nothing is registered and no mint is submitted. *)
Theorem createToken_follows_the_mint (input : Input.t) (output : Output.t)
    (address name symbol : string) (mintAmount : Z) (pin : string) (env : Env W Net) :
  (forall response n minted n',
      sendTransaction (creation_data input output address) pin (net env)
      = (Resolved response, n) ->
      sendTransaction (mint_data response address mintAmount) pin n = (minted, n') ->
      minted <> Pending ->
      (forall e, minted <> Rejected e) ->
      exists env',
        createToken input output address name symbol mintAmount pin env
        = (Resolved (TokenConfig.mk name symbol (Response.tx_tokens_0 response)), env')
        /\ submitted env'
           = submitted env ++ [(creation_data input output address, pin);
                               (mint_data response address mintAmount, pin)]
        /\ fst (getTokens env')
           = fst (getTokens env)
             ++ [TokenConfig.mk name symbol (Response.tx_tokens_0 response)]
        /\ wallet env' = wallet env)
  /\ (forall response n n',
        sendTransaction (creation_data input output address) pin (net env)
        = (Resolved response, n) ->
        sendTransaction (mint_data response address mintAmount) pin n = (Pending, n') ->
        exists env',
          createToken input output address name symbol mintAmount pin env = (Pending, env')
          /\ submitted env'
             = submitted env ++ [(creation_data input output address, pin);
                                 (mint_data response address mintAmount, pin)]
          /\ fst (getTokens env')
             = fst (getTokens env)
               ++ [TokenConfig.mk name symbol (Response.tx_tokens_0 response)])
  /\ (forall n,
        sendTransaction (creation_data input output address) pin (net env) = (Pending, n) ->
        createToken input output address name symbol mintAmount pin env
        = (Pending,
           mkEnv (wallet env) n (storage env)
                 (submitted env ++ [(creation_data input output address, pin)]))).
Proof.
  assert (Hrun : forall response n minted n',
             sendTransaction (creation_data input output address) pin (net env)
             = (Resolved response, n) ->
             sendTransaction (mint_data response address mintAmount) pin n = (minted, n') ->
             exists env',
               createToken input output address name symbol mintAmount pin env
               = (match minted with
                  | Resolved _ =>
                      Resolved (TokenConfig.mk name symbol (Response.tx_tokens_0 response))
                  | Rejected message => Rejected (RejectedReason message)
                  | Pending => Pending
                  end, env')
               /\ submitted env'
                  = submitted env ++ [(creation_data input output address, pin);
                                      (mint_data response address mintAmount, pin)]
               /\ fst (getTokens env')
                  = fst (getTokens env)
                    ++ [TokenConfig.mk name symbol (Response.tx_tokens_0 response)]
               /\ wallet env' = wallet env).
  { intros response n minted n' Hcreate Hmint.
    unfold createToken, bind, ret, transaction_sendTransaction at 1.
    rewrite Hcreate.
    unfold addToken, getTokens, saveToStorage, getItem, setItem, bind, ret, mintTokens,
      transaction_sendTransaction, storage_getItem, storage_setItem.
    cbn [wallet net storage submitted app].
    destruct (storage env "wallet:tokens"%string) as [tokens|] eqn:Hst;
      cbn [wallet net storage submitted]; rewrite Hmint;
      destruct minted; eexists; (split; [reflexivity|]);
      cbn [wallet net storage submitted fst]; rewrite <- app_assoc;
      (split; [reflexivity|]); rewrite String.eqb_refl; now split. }
  split; [|split].
  - intros response n minted n' Hcreate Hmint Hnp Hnr.
    destruct (Hrun response n minted n' Hcreate Hmint) as (env' & Hc & Hrest).
    exists env'. split; [|exact Hrest]. rewrite Hc.
    destruct minted as [|v|e]; [contradiction|reflexivity|now destruct (Hnr e)].
  - intros response n n' Hcreate Hmint.
    destruct (Hrun response n Pending n' Hcreate Hmint) as (env' & Hc & Hs & Ht & _).
    now exists env'.
  - intros n Hcreate.
    unfold createToken, bind, ret, transaction_sendTransaction. now rewrite Hcreate.
Qed.

End CreateTokenMore.

(* ================================================================== *)
(** ** The configuration string, from the parser's side                *)
(* ================================================================== *)

Section ConfigurationStringMore.
Import Js JsFacts.
Local Open Scope string_scope.

Context {Net : Type} {txlib : TransactionLib Net}.

Lemma split_fields_no_sep (sep : ascii) (s : string) :
  forall field, In field (split sep s) -> count_char sep field = 0.
Proof.
  induction s as [|c rest IH]; simpl.
  - intros field [<- | []]. reflexivity.
  - destruct (Ascii.eqb c sep) eqn:E.
    + intros field [<- | Hin]; [reflexivity|now apply IH].
    + destruct (split sep rest) as [|f fs]; simpl.
      * intros field [<- | []]. simpl. now rewrite E.
      * intros field [<- | Hin].
        -- simpl. rewrite E. apply IH. now left.
        -- apply IH. now right.
Qed.

Lemma last_three {A : Type} (l : list A) :
  4 <= List.length l ->
  exists names a b c, l = (names ++ [a; b; c])%list /\ names <> [].
Proof.
  intros Hlen.
  destruct (exists_last (l := l)) as (l1 & c & ->); [now destruct l|].
  rewrite length_app in Hlen. simpl in Hlen.
  destruct (exists_last (l := l1)) as (l2 & b & ->); [destruct l1; simpl in *; [lia|discriminate]|].
  rewrite length_app in Hlen. simpl in Hlen.
  destruct (exists_last (l := l2)) as (l3 & a & ->); [destruct l2; simpl in *; [lia|discriminate]|].
  rewrite length_app in Hlen. simpl in Hlen.
  exists l3, a, b, c. split; [now rewrite <- !app_assoc|].
  destruct l3; [simpl in Hlen; lia|discriminate].
Qed.

(** X13.  Every string [getTokenFromConfigurationString] accepts is the
    configuration string of the token it returns: rendering the parsed
    [{uid, name, symbol}] with [getConfigurationString] gives the string back;
    and the symbol and the uid it returns hold no colon. *)
Theorem parsed_configuration_string_renders_back (config : string) (tokenData : TokenConfig.t) :
  getTokenFromConfigurationString config = Some tokenData ->
  getConfigurationString (TokenConfig.uid tokenData) (TokenConfig.name tokenData)
    (TokenConfig.symbol tokenData) = config
  /\ count_char ":" (TokenConfig.symbol tokenData) = 0
  /\ count_char ":" (TokenConfig.uid tokenData) = 0.
Proof.
  intros Hparse.
  assert (Hshape : exists inner, config = String "[" (inner ++ "]")).
  { apply passes_bracketed.
    match goal with |- ?g = false => destruct g eqn:G end; [|reflexivity].
    rewrite (rejected_is_null (txlib := txlib) config G) in Hparse. discriminate. }
  destruct Hshape as [inner ->].
  assert (Hlen : 4 <= List.length (split ":" inner)).
  { destruct (Nat.lt_ge_cases (List.length (split ":" inner)) 4) as [Hshort|]; [|assumption].
    rewrite (too_few_fields_is_null inner Hshort) in Hparse. discriminate. }
  destruct (last_three _ Hlen) as (names & symbol & uid & checksum & Hsplit & Hne).
  assert (Hsum : toString_hex (getChecksum (Buffer_from (join ":" (names ++ [symbol; uid]))))
                 = checksum).
  { destruct (string_dec
                (toString_hex (getChecksum (Buffer_from (join ":" (names ++ [symbol; uid])))))
                checksum) as [E|N]; [exact E|].
    rewrite (wrong_checksum_is_null inner (names ++ [symbol; uid]) checksum) in Hparse;
      [discriminate| |exact N].
    rewrite Hsplit. now rewrite <- app_assoc. }
  rewrite (fields_are_parsed inner names symbol uid checksum Hsplit Hne Hsum) in Hparse.
  inversion Hparse; subst tokenData. cbn [TokenConfig.uid TokenConfig.name TokenConfig.symbol].
  assert (Hjoin : join ":" (names ++ [symbol; uid]) = join ":" names ++ ":" ++ symbol ++ ":" ++ uid).
  { change (names ++ [symbol; uid])%list with (names ++ [symbol] ++ [uid])%list.
    rewrite app_assoc.
    rewrite join_snoc by (intros E; apply app_eq_nil in E; destruct E; discriminate).
    rewrite join_snoc by exact Hne. now rewrite !append_assoc. }
  split; [|split].
  - assert (Hinner : inner = join ":" (names ++ [symbol; uid]) ++ ":" ++ checksum).
    { rewrite <- (join_split ":" inner) at 1. rewrite Hsplit.
      change (names ++ [symbol; uid; checksum])%list
        with (names ++ [symbol; uid] ++ [checksum])%list.
      rewrite app_assoc.
      now rewrite join_snoc by (intros E; apply app_eq_nil in E; destruct E; discriminate). }
    unfold getConfigurationString. cbv zeta. rewrite <- Hjoin, Hsum, Hinner.
    simpl. now rewrite !append_assoc.
  - apply (split_fields_no_sep ":" inner). rewrite Hsplit. apply in_or_app. right.
    now left.
  - apply (split_fields_no_sep ":" inner). rewrite Hsplit. apply in_or_app. right.
    right. now left.
Qed.

End ConfigurationStringMore.

(* ================================================================== *)
(** ** The mining submission machine, over every service               *)
(* ================================================================== *)

Section MiningMore.

Context {T : Type} (toHex : T -> string).
Context {constants : Constants}.

Lemma run_invariant (service : Service) (P : Run (T := T) -> Prop) :
  (forall r r', P r -> run_step toHex service r = Some r' -> P r') ->
  forall fuel r, P r -> P (run toHex service fuel r).
Proof.
  intros Hstep. induction fuel as [|fuel IH]; intros r Hr; [exact Hr|].
  cbn [run]. destruct (run_step toHex service r) as [r'|] eqn:E; [|exact Hr].
  apply IH. now apply (Hstep r).
Qed.

Lemma actions_of_snoc (l : list (Stimulus * list Action)) (s : Stimulus) (done : list Action) :
  actions_of (l ++ [(s, done)]) = actions_of l ++ done.
Proof. unfold actions_of. rewrite map_app, concat_app. simpl. now rewrite app_nil_r. Qed.

Lemma terminal_events_snoc (l : list (Stimulus * list Action)) (s : Stimulus)
    (done : list Action) :
  terminal_events (l ++ [(s, done)])
  = terminal_events l + List.length (filter is_terminal done).
Proof. unfold terminal_events. now rewrite actions_of_snoc, filter_app, length_app. Qed.

(** All the ways a step can go: the run is taken apart, the answer of the
    service and every test of the handlers are split. *)
Ltac step_cases r H :=
  destruct r as [[tr est jid cnt mx pr ph] ns np lg];
  unfold run_step, next_stimulus in H;
  cbn [object phase answered_submissions answered_polls log] in H;
  destruct ph as [| |[|]| |];
  try discriminate H;
  unfold react, start, submitJob, submitJob_response, getJobStatus_response, api_catch,
    timer_fired, handleJobStatus, emit, stop, set_phase, set_estimation, set_jobID,
    andThen in H;
  repeat match type of H with
         | context [submit_reply ?s ?n] => destruct (submit_reply s n) as [resp|]
         | context [status_reply ?s ?n] => destruct (status_reply s n) as [st|]
         end;
  cbn -[Qmax Qmult Qdiv Qeq_bool Z.ltb Z.add String.eqb] in H;
  repeat match type of H with
         | context [if Qeq_bool ?a ?b then _ else _] => destruct (Qeq_bool a b) eqn:?
         | context [if String.eqb ?a ?b then _ else _] => destruct (String.eqb a b) eqn:?
         | context [if Z.ltb ?a ?b then _ else _] => destruct (Z.ltb_spec a b)
         end;
  cbn -[Qmax Qmult Qdiv Qeq_bool Z.ltb Z.add String.eqb] in H;
  inversion H; subst; clear H.

Lemma well_settled_step (service : Service) (r r' : Run (T := T)) :
  well_settled r -> run_step toHex service r = Some r' -> well_settled r'.
Proof.
  intros Hinv H. step_cases r H;
    unfold well_settled in *;
    cbn [object phase promise log settle] in *;
    destruct pr; try contradiction;
    rewrite ?terminal_events_snoc, ?actions_of_snoc; cbn [filter is_terminal List.length];
    try lia.
  all: split; [lia|].
  all: first [ exists (actions_of lg); left; reflexivity
             | exists (actions_of lg); right; reflexivity
             | exists (actions_of lg ++ [Emit (job_done jid)]);
               rewrite <- app_assoc; reflexivity ].
Qed.

Lemma send_invariant (service : Service) (P : Run (T := T) -> Prop) (tx : T)
    (options : option Z) :
  (forall r r', P r -> run_step toHex service r = Some r' -> P r') ->
  P (mkRun (new_SendTransaction tx options) 0 0 []) ->
  forall fuel, P (send toHex service fuel tx options).
Proof. intros Hstep Hinit fuel. unfold send. now apply run_invariant. Qed.

(** X14.  Whatever the mining service answers and however long the run is
    followed, the promise settles at most once and together with the only
    settling event: before the end it is pending and neither [success] nor an
    error event was emitted; in [Done] exactly one settling event was
    emitted, a [success] whose data the promise is resolved with, and nothing
    was done after it; in [Failed] exactly one was emitted, an error event
    whose message the promise is rejected with, and nothing was done after
    it. *)
Theorem promise_settles_once (service : Service) (fuel : nat) (tx : T) (options : option Z) :
  well_settled (send toHex service fuel tx options).
Proof.
  apply send_invariant.
  - intros r r'. apply well_settled_step.
  - reflexivity.
Qed.

Lemma attempts_counted_step (service : Service) (m : Z) (r r' : Run (T := T)) :
  attempts_counted m r -> run_step toHex service r = Some r' -> attempts_counted m r'.
Proof.
  intros Hinv H. step_cases r H;
    unfold attempts_counted in *;
    cbn [object phase promise log countTxMiningAttempts maxTxMiningRetries] in *;
    rewrite ?submissions_snoc, ?resubmissions_snoc;
    cbn [filter is_submission is_status_response List.length];
    intuition (try discriminate; try lia).
Qed.

Lemma submitted_on_start_or_timeout_step (service : Service) (r r' : Run (T := T)) :
  Forall submitted_on_start_or_timeout (log r) ->
  run_step toHex service r = Some r' ->
  Forall submitted_on_start_or_timeout (log r').
Proof.
  intros Hinv H. step_cases r H; cbn [log] in *;
    apply Forall_app; (split; [exact Hinv|]).
  all: apply Forall_cons; [|apply Forall_nil].
  all: unfold submitted_on_start_or_timeout; cbn [fst snd existsb is_submission orb].
  all: intros Hsub; try discriminate Hsub.
  all: first
         [ now left
         | match goal with
           | E : String.eqb (StatusResponse.status ?s) "timeout" = true |- _ =>
               right; exists s; split; [reflexivity|now apply String.eqb_eq in E]
           end ].
Qed.

(** X15.  For every mining service and however long the run is followed, the
    counter of attempts is the number of jobs submitted; a job is submitted
    only by [start()] or on a status answer [timeout], so that every
    submission but the first is a resubmission on a timeout; and the number
    of submissions never exceeds [maxTxMiningRetries], or 1 when that is less
    than 1. *)
Theorem submissions_are_bounded (service : Service) (fuel : nat) (tx : T)
    (options : option Z) :
  let r := send toHex service fuel tx options in
  let m := match options with Some m => m | None => 3%Z end in
  (Z.of_nat (submissions (log r)) <= Z.max 1 m)%Z
  /\ countTxMiningAttempts (object r) = Z.of_nat (submissions (log r))
  /\ resubmissions (log r) = submissions (log r) - 1
  /\ Forall submitted_on_start_or_timeout (log r).
Proof.
  intros r m.
  assert (Hinv : attempts_counted m r).
  { apply send_invariant.
    - intros r0 r'. apply attempts_counted_step.
    - unfold attempts_counted. cbn. repeat split; try lia. intros Hne. now destruct Hne. }
  destruct Hinv as (_ & Hcount & Hbound & Hre & _).
  split; [exact Hbound|]. split; [exact Hcount|]. split; [exact Hre|].
  apply (send_invariant service (fun r0 => Forall submitted_on_start_or_timeout (log r0))).
  - intros r0 r'. apply submitted_on_start_or_timeout_step.
  - constructor.
Qed.

Lemma floor_le (x : Q) :
  (MIN_POLLING_INTERVAL * 1000 <= Qmax x MIN_POLLING_INTERVAL * 1000)%Q.
Proof. apply Qmult_le_compat_r; [apply Q.le_max_r|discriminate]. Qed.

Lemma floor_step (service : Service) (r r' : Run (T := T)) :
  Forall respects_floor (actions_of (log r)) ->
  run_step toHex service r = Some r' ->
  Forall respects_floor (actions_of (log r')).
Proof.
  intros Hinv H. step_cases r H; cbn [log] in *;
    rewrite actions_of_snoc; apply Forall_app; (split; [exact Hinv|]);
    repeat constructor; apply floor_le.
Qed.

(** X16.  For every mining service whose answers carry a number as
    [expected_total_time], the delay the machine asks of [setTimeout] is never
    below the polling floor: every delay requested in a run is at least
    [MIN_POLLING_INTERVAL] seconds, in milliseconds.  (What the runtime makes
    of a requested delay is not part of the statement.) *)
Theorem timers_respect_the_floor (service : Service) (fuel : nat) (tx : T)
    (options : option Z) :
  Forall respects_floor (actions_of (log (send toHex service fuel tx options))).
Proof.
  apply (send_invariant service (fun r => Forall respects_floor (actions_of (log r)))).
  - intros r r'. apply floor_step.
  - constructor.
Qed.

(** The run has not ended. *)
Let alive (r : Run (T := T)) : Prop :=
  match phase (object r) with Done | Failed => False | _ => True end
  /\ promise (object r) = Pending.

Lemma alive_step (service : Service) (r : Run (T := T)) :
  always_accepts service -> always_mining service -> alive r ->
  exists r', run_step toHex service r = Some r'
             /\ alive r'
             /\ List.length (log r') = S (List.length (log r)).
Proof.
  intros Haccepts Hmining [Hphase Hpending].
  destruct r as [[tr est jid cnt mx pr ph] ns np lg].
  cbn [object phase promise log] in *. subst pr.
  destruct (Haccepts ns) as (resp & Hr & Hok).
  destruct (Hmining np) as (st & Hs & Hdone & Htimeout & Htime).
  apply String.eqb_neq in Hdone, Htimeout.
  unfold run_step, next_stimulus.
  cbn [object phase answered_submissions answered_polls log].
  destruct ph as [| |[|]| |]; try contradiction.
  - eexists. split; [reflexivity|]. cbn. rewrite length_app. cbn. repeat split. lia.
  - rewrite Hr. cbn [react phase]. unfold submitJob_response. rewrite Hok.
    eexists. split; [reflexivity|]. cbn -[Qmax Qmult Qdiv]. rewrite length_app. cbn.
    repeat split. lia.
  - eexists. split; [reflexivity|]. cbn. rewrite length_app. cbn. repeat split. lia.
  - rewrite Hs. cbn [react phase]. unfold getJobStatus_response.
    rewrite Hdone, Htimeout, Htime.
    eexists. split; [reflexivity|]. cbn -[Qmax Qmult Qdiv]. rewrite length_app. cbn.
    repeat split. lia.
Qed.

(** X17.  The machine sets no limit on polling: against a service that
    accepts every submission and answers every status request with a status
    other than [done] and [timeout] (and a time other than -1), the run never
    ends; however many stimuli it is followed for, it has taken them all, its
    promise is pending and no settling event was emitted. *)
Theorem polling_has_no_limit (service : Service) (tx : T) (options : option Z) :
  always_accepts service ->
  always_mining service ->
  forall fuel,
    let r := send toHex service fuel tx options in
    promise (object r) = Pending
    /\ phase (object r) <> Done
    /\ phase (object r) <> Failed
    /\ List.length (log r) = fuel
    /\ terminal_events (log r) = 0.
Proof.
  intros Haccepts Hmining fuel r.
  assert (Hrun : forall n r0,
             alive r0 ->
             alive (run toHex service n r0)
             /\ List.length (log (run toHex service n r0))
                = n + List.length (log r0)).
  { induction n as [|f IH]; intros r0 Halive; [now split|].
    destruct (alive_step service r0 Haccepts Hmining Halive) as (r' & Hstep & Halive' & Hlen).
    cbn [run]. rewrite Hstep. destruct (IH r' Halive') as [Ha Hl].
    split; [exact Ha|]. rewrite Hl, Hlen. lia. }
  destruct (Hrun fuel (mkRun (new_SendTransaction tx options) 0 0 [])
              ltac:(unfold alive; cbn; now split)) as [[Hphase Hpending] Hlen].
  fold (send toHex service fuel tx options) in Hphase, Hpending, Hlen. fold r in Hphase, Hpending, Hlen.
  pose proof (send_invariant service well_settled tx options
                (fun r0 r' => well_settled_step service r0 r') eq_refl fuel) as Hsettled.
  fold r in Hsettled. unfold well_settled in Hsettled. rewrite Hpending in Hsettled.
  split; [exact Hpending|].
  destruct (phase (object r)) as [| |stage| |]; try contradiction;
    repeat split; try discriminate; try exact Hsettled; cbn in Hlen; lia.
Qed.

(** X18.  When the first submission is accepted and the first status request
    is answered [done], the run ends in [Done] after one submission and one
    poll: it emits [job-submitted], sets the timer, asks for the status, emits
    [job-done] and then [success], and its promise is resolved with the nonce
    read in base 16 and the parents, timestamp and weight of the answer. *)
Theorem job_done_at_first_poll (service : Service) (fuel : nat) (tx : T) (options : option Z)
    (submitted_job : SubmitResponse.t) (status : StatusResponse.t) :
  submit_reply service 0 = Answer submitted_job ->
  Qeq_bool (SubmitResponse.expected_total_time submitted_job) (-1) = false ->
  status_reply service 0 = Answer status ->
  StatusResponse.status status = "done"%string ->
  4 <= fuel ->
  let data :=
    Mined.mk (Js.parseInt16 (MinedTx.nonce (StatusResponse.tx status)))
             (MinedTx.parents (StatusResponse.tx status))
             (MinedTx.timestamp (StatusResponse.tx status))
             (MinedTx.weight (StatusResponse.tx status)) in
  let job := Some (SubmitResponse.job_id submitted_job) in
  let seconds := SubmitResponse.expected_total_time submitted_job in
  send toHex service fuel tx options
  = mkRun (mkSendTransaction tx (Some seconds) job 1
             (match options with Some m => m | None => 3%Z end) (Resolved data) Done)
          1 1
          [(Start, [CallSubmitJob (toHex tx)]);
           (SubmitJobResponse submitted_job,
            [Emit (job_submitted (Some seconds) job);
             SetTimeout (Qmax (seconds / 2) MIN_POLLING_INTERVAL * 1000)%Q]);
           (TimerFired, [CallGetJobStatus job]);
           (JobStatusResponse status, [Emit (job_done job); Emit (success data)])].
Proof.
  intros Hsub Hok Hst Hdone Hfuel data job seconds. unfold send.
  replace fuel with (4 + (fuel - 4)) by lia. rewrite run_add.
  remember (run toHex service 4 (mkRun (new_SendTransaction tx options) 0 0 [])) as r4 eqn:E.
  cbn [run] in E. unfold run_step at 1 in E. cbn -[Qmax Qmult Qdiv Qeq_bool] in E.
  rewrite Hsub in E. cbn [react phase] in E. unfold submitJob_response in E.
  rewrite Hok in E. cbn -[Qmax Qmult Qdiv Qeq_bool] in E.
  rewrite Hst in E. cbn -[Qmax Qmult Qdiv Qeq_bool] in E.
  unfold getJobStatus_response in E. rewrite Hdone in E.
  cbn -[Qmax Qmult Qdiv Qeq_bool] in E. subst r4.
  apply run_terminal. now right.
Qed.

(** X19.  The failure of a call to the mining API ends the run at once in
    [Failed] with the unexpected error, whatever attempts are left: on the
    first submission, after that one submission and without any poll; on the
    first status request, after one submission and one poll, without a
    resubmission. *)
Theorem transport_failure_fails_at_once (service : Service) (fuel : nat) (tx : T)
    (options : option Z) :
  (submit_reply service 0 = TransportFailure ->
   2 <= fuel ->
   send toHex service fuel tx options
   = mkRun (mkSendTransaction tx None None 1
              (match options with Some m => m | None => 3%Z end)
              (Rejected unexpectedError) Failed)
           1 0
           [(Start, [CallSubmitJob (toHex tx)]);
            (SubmitJobFailed, [Emit (unexpected_error unexpectedError)])])
  /\ (forall submitted_job,
        submit_reply service 0 = Answer submitted_job ->
        Qeq_bool (SubmitResponse.expected_total_time submitted_job) (-1) = false ->
        status_reply service 0 = TransportFailure ->
        4 <= fuel ->
        send toHex service fuel tx options
        = mkRun (mkSendTransaction tx
                   (Some (SubmitResponse.expected_total_time submitted_job))
                   (Some (SubmitResponse.job_id submitted_job)) 1
                   (match options with Some m => m | None => 3%Z end)
                   (Rejected unexpectedError) Failed)
                1 1
                [(Start, [CallSubmitJob (toHex tx)]);
                 (SubmitJobResponse submitted_job,
                  [Emit (job_submitted
                           (Some (SubmitResponse.expected_total_time submitted_job))
                           (Some (SubmitResponse.job_id submitted_job)));
                   SetTimeout
                     (Qmax (SubmitResponse.expected_total_time submitted_job / 2)
                           MIN_POLLING_INTERVAL * 1000)%Q]);
                 (TimerFired, [CallGetJobStatus (Some (SubmitResponse.job_id submitted_job))]);
                 (JobStatusFailed, [Emit (unexpected_error unexpectedError)])]).
Proof.
  split.
  - intros Hsub Hfuel. unfold send.
    replace fuel with (2 + (fuel - 2)) by lia. rewrite run_add.
    remember (run toHex service 2 (mkRun (new_SendTransaction tx options) 0 0 [])) as r2 eqn:E.
    cbn [run] in E. unfold run_step at 1 in E. cbn -[Qmax Qmult Qdiv Qeq_bool] in E.
    rewrite Hsub in E. cbn -[Qmax Qmult Qdiv Qeq_bool] in E. subst r2.
    apply run_terminal. now left.
  - intros submitted_job Hsub Hok Hst Hfuel. unfold send.
    replace fuel with (4 + (fuel - 4)) by lia. rewrite run_add.
    remember (run toHex service 4 (mkRun (new_SendTransaction tx options) 0 0 [])) as r4 eqn:E.
    cbn [run] in E. unfold run_step at 1 in E. cbn -[Qmax Qmult Qdiv Qeq_bool] in E.
    rewrite Hsub in E. cbn [react phase] in E. unfold submitJob_response in E.
    rewrite Hok in E. cbn -[Qmax Qmult Qdiv Qeq_bool] in E.
    rewrite Hst in E. cbn -[Qmax Qmult Qdiv Qeq_bool] in E. subst r4.
    apply run_terminal. now left.
Qed.

Section Retry.

Variable service : Service.
Variable max : Z.
Variable k : nat.
Variable last_job : SubmitResponse.t.
Variable status : StatusResponse.t.
Hypothesis Haccepts : always_accepts service.
Hypothesis Hlast_job : submit_reply service k = Answer last_job.
Hypothesis Htimeouts :
  forall n, n < k -> exists response,
      status_reply service n = Answer response
      /\ StatusResponse.status response = "timeout"%string.
Hypothesis Hdone : status_reply service k = Answer status.
Hypothesis Hstatus : StatusResponse.status status = "done"%string.
Hypothesis Hleft : (Z.of_nat k < max)%Z.

(** The run stands at its [c]-th submission, still unanswered, every earlier
    submission having been polled once. *)
Let retrying (r : Run (T := T)) (c : nat) : Prop :=
  phase (object r) = Submitting
  /\ promise (object r) = Pending
  /\ countTxMiningAttempts (object r) = Z.of_nat c
  /\ maxTxMiningRetries (object r) = max
  /\ answered_submissions r = c - 1
  /\ answered_polls r = c - 1
  /\ submissions (log r) = c
  /\ polls (log r) = c - 1
  /\ resubmissions (log r) = c - 1.

Lemma retry_round (r : Run (T := T)) (c : nat) :
  1 <= c -> c <= k -> retrying r c -> retrying (run toHex service 3 r) (S c).
Proof.
  intros Hc Hk (Hph & Hpr & Hcnt & Hmax & Hns & Hnp & Hsub & Hpoll & Hre).
  destruct r as [[tr est jid cnt mx pr ph] ns np lg].
  cbn [object log phase promise countTxMiningAttempts maxTxMiningRetries
         answered_submissions answered_polls] in *.
  subst ph pr cnt mx ns np.
  destruct (Haccepts (c - 1)) as (resp & Hr & Hok).
  destruct (Htimeouts (c - 1) ltac:(lia)) as (st & Hs & Hst).
  remember (run toHex service 3
              (mkRun (mkSendTransaction tr est jid (Z.of_nat c) max Pending Submitting)
                 (c - 1) (c - 1) lg)) as r3 eqn:E3.
  cbn [run] in E3. unfold run_step at 1 in E3.
  cbn [next_stimulus object phase answered_submissions answered_polls log] in E3.
  rewrite Hr in E3.
  cbn [react phase] in E3. unfold submitJob_response in E3. rewrite Hok in E3.
  cbn -[Qmax Qmult Qdiv Qeq_bool Z.ltb Z.add Nat.sub] in E3.
  rewrite Hs in E3.
  cbn -[Qmax Qmult Qdiv Qeq_bool Z.ltb Z.add Nat.sub] in E3.
  unfold getJobStatus_response in E3. rewrite Hst in E3.
  cbn -[Qmax Qmult Qdiv Qeq_bool Z.ltb Z.add Nat.sub] in E3.
  destruct (Z.ltb_spec (Z.of_nat c) max) as [Hlt|Hge]; [|lia].
  cbn -[Qmax Qmult Qdiv Z.add Nat.sub] in E3. subst r3.
  unfold retrying. cbn [object log phase promise countTxMiningAttempts
                          maxTxMiningRetries answered_submissions answered_polls].
  rewrite !submissions_snoc, !polls_snoc, !resubmissions_snoc. cbn.
  repeat split; lia.
Qed.

Lemma retry_rounds (n : nat) :
  forall (r : Run (T := T)) (c : nat),
    1 <= c -> c + n = S k -> retrying r c ->
    retrying (run toHex service (3 * n) r) (S k).
Proof.
  induction n as [|n IH]; intros r c Hc Hn Hat.
  - replace (S k) with c by lia. exact Hat.
  - replace (3 * S n) with (3 + 3 * n) by lia. rewrite run_add.
    apply (IH _ (S c)); [lia|lia|]. apply retry_round; [exact Hc|lia|exact Hat].
Qed.

(** X20.  A timeout is made up for by the resubmission: when every submission
    is accepted, the first [k] status requests are answered [timeout] and the
    next one [done], with [k] less than [maxTxMiningRetries], the run ends in
    [Done] after [k + 1] submissions, [k] of them resubmissions, each polled
    once; the last poll asks for the job of the last submission, and the
    promise is resolved with the data of the [done] answer. *)
Theorem timeouts_then_done (tx : T) :
  forall fuel,
    3 * k + 4 <= fuel ->
    let r := send toHex service fuel tx (Some max) in
    let data :=
      Mined.mk (Js.parseInt16 (MinedTx.nonce (StatusResponse.tx status)))
               (MinedTx.parents (StatusResponse.tx status))
               (MinedTx.timestamp (StatusResponse.tx status))
               (MinedTx.weight (StatusResponse.tx status)) in
    let job := Some (SubmitResponse.job_id last_job) in
    phase (object r) = Done
    /\ promise (object r) = Resolved data
    /\ submissions (log r) = S k
    /\ resubmissions (log r) = k
    /\ polls (log r) = S k
    /\ exists earlier before,
         log r = earlier
                 ++ [(SubmitJobResponse last_job, before);
                     (TimerFired, [CallGetJobStatus job]);
                     (JobStatusResponse status, [Emit (job_done job); Emit (success data)])].
Proof.
  intros fuel Hfuel r data job. subst r. unfold send.
  replace fuel with (1 + (3 * k + (3 + (fuel - 3 * k - 4)))) by lia.
  rewrite !run_add.
  remember (run toHex service 1 (mkRun (new_SendTransaction tx (Some max)) 0 0 [])) as r1 eqn:E1.
  cbn in E1.
  assert (Hat1 : retrying r1 1).
  { subst r1. unfold retrying. cbn. repeat split. }
  pose proof (retry_rounds k r1 1 ltac:(lia) ltac:(lia) Hat1) as Hat.
  remember (run toHex service (3 * k) r1) as rk eqn:Ek. clear E1 Ek Hat1 r1.
  destruct Hat as (Hph & Hpr & Hcnt & Hmax & Hns & Hnp & Hsub & Hpoll & Hre).
  destruct rk as [[tr est jid cnt mx pr ph] ns np lg].
  cbn [object log phase promise countTxMiningAttempts maxTxMiningRetries
         answered_submissions answered_polls] in *.
  subst ph pr cnt mx ns np.
  replace (S k - 1) with k in * by lia.
  remember (run toHex service 3
              (mkRun (mkSendTransaction tr est jid (Z.of_nat (S k)) max Pending Submitting)
                 k k lg)) as r3 eqn:E3.
  cbn [run] in E3. unfold run_step at 1 in E3.
  cbn [next_stimulus object phase answered_submissions answered_polls log] in E3.
  rewrite Hlast_job in E3.
  destruct (Haccepts k) as (resp & Hr & Hok). rewrite Hlast_job in Hr.
  inversion Hr; subst resp.
  cbn [react phase] in E3. unfold submitJob_response in E3. rewrite Hok in E3.
  cbn -[Qmax Qmult Qdiv Qeq_bool Z.ltb Z.add] in E3.
  rewrite Hdone in E3.
  cbn -[Qmax Qmult Qdiv Qeq_bool Z.ltb Z.add] in E3.
  unfold getJobStatus_response in E3. rewrite Hstatus in E3.
  cbn -[Qmax Qmult Qdiv Qeq_bool Z.ltb Z.add] in E3.
  rewrite run_terminal by (subst r3; now right). subst r3.
  cbn [object log phase promise].
  rewrite !submissions_snoc, !polls_snoc, !resubmissions_snoc. cbn.
  repeat split; try lia.
  eexists lg, _. rewrite <- !app_assoc. reflexivity.
Qed.

End Retry.

End MiningMore.

(* ================================================================== *)
(** ** The further properties, run                                     *)
(* ================================================================== *)

Section MoreExamples.
Local Open Scope string_scope.

Lemma unregister_native_empties_registry_witness :
  fst (getTokens (constants := sample_constants) sample_env)
  = [HATHOR_TOKEN_CONFIG (Constants := sample_constants)]
  /\ fst (getTokens (constants := sample_constants)
            (snd (unregisterToken (constants := sample_constants) "00" sample_env))) = []
  /\ fst (tokenExists (constants := sample_constants) "00"
            (snd (unregisterToken (constants := sample_constants) "00" sample_env))) = None.
Proof.
  apply (unregister_native_empties_registry (constants := sample_constants) sample_env).
  reflexivity.
Defined.

Lemma editToken_moves_to_last_index_witness :
  getTokenIndex (constants := sample_constants)
    (fst (getTokens (constants := sample_constants)
            (snd (editToken (constants := sample_constants) "01" "A2" "AA2"
                    sample_registry_env)))) "01"
  = Z.of_nat
      (List.length
         (non_native (constants := sample_constants)
            (fst (getTokens (constants := sample_constants)
                    (snd (editToken (constants := sample_constants) "01" "A2" "AA2"
                            sample_registry_env)))))).
Proof.
  apply (editToken_moves_to_last_index (constants := sample_constants) "01" "A2" "AA2"
           sample_registry_env).
  discriminate.
Defined.

(** The token [01], first of the sample registry, has index 1 before the
    edit and index 2 after it. *)
Example editToken_changes_the_index :
  getTokenIndex (constants := sample_constants) sample_registry "01" = 1%Z
  /\ getTokenIndex (constants := sample_constants)
       (fst (getTokens (constants := sample_constants)
               (snd (editToken (constants := sample_constants) "01" "A2" "AA2"
                       sample_registry_env)))) "01" = 2%Z.
Proof. split; reflexivity. Qed.

Lemma validateTokenToAddByConfigurationString_witness :
  Validation.success
    (fst (validateTokenToAddByConfigurationString (constants := sample_constants)
            (txlib := sample_transaction_lib) "[My:Coin:MYC:00ab:4d793a43]" (Some "00ab")
            sample_registry_env)) = true.
Proof.
  apply (proj1 (proj2 (validateTokenToAddByConfigurationString_spec
                         (constants := sample_constants) (txlib := sample_transaction_lib)
                         "[My:Coin:MYC:00ab:4d793a43]" (Some "00ab") sample_registry_env))).
  exists (TokenConfig.mk "My:Coin" "MYC" "00ab").
  split; [reflexivity|]. split; [right; right; reflexivity|].
  simpl. intros token [<- | [<- | [<- | []]]]; discriminate.
Defined.

Lemma getMeltInputs_monotone_witness :
  exists r' more,
    getMeltInputs (walletlib := sample_wallet_lib) 20 "01" sample_history = Some r'
    /\ MeltInputs.inputs
         (MeltInputs.mk [Input.mk "bb" 1 "01" "W2"; Input.mk "bb" 3 "01" "W4"] 80)
       = (MeltInputs.inputs r' ++ more)%list.
Proof.
  apply (getMeltInputs_monotone (walletlib := sample_wallet_lib) sample_history 80 20 "01"
           (MeltInputs.mk [Input.mk "bb" 1 "01" "W2"; Input.mk "bb" 3 "01" "W4"] 80)).
  - lia.
  - reflexivity.
Defined.


Lemma createToken_follows_the_mint_witness :
  exists env' : Env (list Tx.t) unit,
    createToken (constants := sample_constants) (txlib := sample_transaction_lib)
      (Input.mk "ab" 0 "00" "W0") (Output.mk "W1" 99 0) "W2" "My:Coin" "MYC" 500 "1234"
      sample_env
    = (Resolved (TokenConfig.mk "My:Coin" "MYC" "00bb"), env')
    /\ List.length (submitted env') = 2
    /\ fst (getTokens (constants := sample_constants) env')
       = [TokenConfig.mk "Hathor" "HTR" "00"; TokenConfig.mk "My:Coin" "MYC" "00bb"].
Proof.
  destruct (proj1 (createToken_follows_the_mint (constants := sample_constants)
                     (txlib := sample_transaction_lib)
                     (Input.mk "ab" 0 "00" "W0") (Output.mk "W1" 99 0) "W2" "My:Coin" "MYC"
                     500 "1234" sample_env)
                  (Response.mk "00aa" "00bb") tt (Resolved (Response.mk "00aa" "00bb")) tt
                  eq_refl eq_refl ltac:(discriminate) ltac:(discriminate))
    as (env' & Hrun & Hsub & Htokens & _).
  exists env'. split; [exact Hrun|]. split; [now rewrite Hsub|exact Htokens].
Defined.

Lemma parsed_configuration_string_renders_back_witness :
  getConfigurationString (txlib := sample_transaction_lib) "00ab" "My:Coin" "MYC"
  = "[My:Coin:MYC:00ab:4d793a43]"
  /\ Js.count_char ":" "MYC" = 0
  /\ Js.count_char ":" "00ab" = 0.
Proof.
  apply (parsed_configuration_string_renders_back (txlib := sample_transaction_lib)
           "[My:Coin:MYC:00ab:4d793a43]" (TokenConfig.mk "My:Coin" "MYC" "00ab")).
  reflexivity.
Defined.

Lemma mining_service_accepts : always_accepts mining_service.
Proof. intros n. eexists. split; reflexivity. Defined.

Lemma mining_service_keeps_mining : always_mining mining_service.
Proof.
  intros n. eexists. split; [reflexivity|].
  split; [discriminate|]. split; [discriminate|reflexivity].
Defined.

Lemma polling_has_no_limit_witness :
  promise (object (send (constants := sample_constants) (fun t : string => t)
                     mining_service 25 "abcd" None)) = Pending
  /\ phase (object (send (constants := sample_constants) (fun t : string => t)
                      mining_service 25 "abcd" None)) <> Done
  /\ phase (object (send (constants := sample_constants) (fun t : string => t)
                      mining_service 25 "abcd" None)) <> Failed
  /\ List.length (log (send (constants := sample_constants) (fun t : string => t)
                         mining_service 25 "abcd" None)) = 25
  /\ terminal_events (log (send (constants := sample_constants) (fun t : string => t)
                             mining_service 25 "abcd" None)) = 0.
Proof.
  apply (polling_has_no_limit (constants := sample_constants) (fun t : string => t)
           mining_service "abcd" None mining_service_accepts mining_service_keeps_mining 25).
Defined.

Lemma job_done_at_first_poll_witness :
  promise (object (send (constants := sample_constants) (fun t : string => t)
                     done_service 10 "abcd" None))
  = Resolved (Mined.mk (Some 31%Z) ["p1"; "p2"] 1600000000 17).
Proof.
  rewrite (job_done_at_first_poll (constants := sample_constants) (fun t : string => t)
             done_service 10 "abcd" None (SubmitResponse.mk 10 "job")
             (StatusResponse.mk "done" (MinedTx.mk "1f" ["p1"; "p2"] 1600000000 17) 0)
             eq_refl eq_refl eq_refl eq_refl ltac:(lia)).
  reflexivity.
Defined.

Lemma recovering_service_accepts : always_accepts recovering_service.
Proof. intros n. eexists. split; reflexivity. Defined.

Lemma recovering_service_times_out_twice :
  forall n, n < 2 -> exists response,
      status_reply recovering_service n = Answer response
      /\ StatusResponse.status response = "timeout".
Proof.
  intros n Hn. exists (StatusResponse.mk "timeout" (MinedTx.mk "" [] 0 0) 10).
  destruct n as [|[|n]]; [now split|now split|lia].
Defined.

Lemma timeouts_then_done_witness :
  phase (object (send (constants := sample_constants) (fun t : string => t)
                   recovering_service 10 "abcd" (Some 3%Z))) = Done
  /\ submissions (log (send (constants := sample_constants) (fun t : string => t)
                         recovering_service 10 "abcd" (Some 3%Z))) = 3
  /\ resubmissions (log (send (constants := sample_constants) (fun t : string => t)
                           recovering_service 10 "abcd" (Some 3%Z))) = 2.
Proof.
  destruct (timeouts_then_done (constants := sample_constants) (fun t : string => t)
              recovering_service 3 2 (SubmitResponse.mk 10 "new")
              (StatusResponse.mk "done" (MinedTx.mk "1f" ["p1"; "p2"] 1600000000 17) 0)
              recovering_service_accepts eq_refl recovering_service_times_out_twice
              eq_refl eq_refl ltac:(lia) "abcd" 10 ltac:(simpl; lia))
    as (Hphase & _ & Hsub & Hre & _).
  split; [exact Hphase|]. split; [exact Hsub|exact Hre].
Defined.

End MoreExamples.
